(** * A shallow embedding of the FastAPI social-media backend

    The development follows the layout of the Python package [app]:
    [config], [models], [schemas], [utils], [oauth2] and the four routers
    [auth], [user], [post] and [vote].  The PostgreSQL database behind
    SQLAlchemy is a record of three tables (lists of rows, in insertion
    order) and two SERIAL sequences; a request handler is a function in a
    small state-and-exception monad over that record.

    Conventions.
    - Python [int] is [Z], [bool] is [bool], and [str] is [string]: one
      element of a [string] stands for one character of the text (not for
      a byte of an encoding), so the embedding covers text over the first
      256 code points, the NUL character included.
    - Instants ([datetime], [TIMESTAMP]) are an integer number of
      microseconds since the epoch, the resolution of [datetime.now].
    - What the handlers obtain from their environment is an explicit
      argument: the clock reading [now] and, for registration, the salt
      that bcrypt draws.
    - Nothing is assumed of the strings and integers a request brings:
      where the driver, the password library or a column type refuses a
      value, the handler raises (validation of e-mail syntax by pydantic
      is outside the embedding). *)

From Stdlib Require Import ZArith String Ascii List Bool Lia.
From Stdlib Require Import DecimalString Sorted Permutation.
Import ListNotations.

Local Open Scope string_scope.
Local Open Scope Z_scope.

(** ** Python helpers *)

(** [str(n)] for an [int]. *)
Definition str (n : Z) : string := NilZero.string_of_int (Z.to_int n).

(** Whether a text holds the NUL character. *)
Fixpoint has_nul (s : string) : bool :=
  match s with
  | EmptyString => false
  | String c s' => Ascii.eqb c "000"%char || has_nul s'
  end.

(** [.first()] of a query result. *)
Definition first {A : Type} (rows : list A) : option A :=
  match rows with
  | [] => None
  | r :: _ => Some r
  end.

(** ** fastapi.HTTPException and the exceptions that escape a handler *)

Record HTTPException : Type := mkHTTPException {
  status_code : Z;
  detail : string;
  headers : list (string * string)
}.

Definition HTTP_201_CREATED : Z := 201.
Definition HTTP_204_NO_CONTENT : Z := 204.
Definition HTTP_401_UNAUTHORIZED : Z := 401.
Definition HTTP_403_FORBIDDEN : Z := 403.
Definition HTTP_404_NOT_FOUND : Z := 404.
Definition HTTP_409_CONFLICT : Z := 409.

Inductive Exn : Type :=
| Raise (e : HTTPException)
    (* raise HTTPException(...) *)
| IntegrityError
    (* sqlalchemy.exc.IntegrityError: a key or foreign-key constraint of
       models.py rejected an INSERT; no handler catches it *)
| DataError
    (* sqlalchemy.exc.DataError: the database rejected a LIMIT or OFFSET
       argument, or a SERIAL sequence is exhausted; no handler catches it *)
| ValueError
    (* ValueError: psycopg2 refuses a string parameter that holds NUL;
       passlib's bcrypt refuses NUL in a password (NullPasswordError) and
       a digest that does not parse (MalformedHashError) *)
| PasswordSizeError
    (* passlib.exc.PasswordSizeError: a password of more than 4096
       characters *)
| UnknownHashError
    (* passlib.exc.UnknownHashError: the stored digest is not one the
       context can identify *)
| RequestValidationError.
    (* fastapi: the request body failed its schema *)

(** ** config.py *)

Module config.

Record Settings : Type := mkSettings {
  database_host : string;
  database_port : Z;
  database_user : string;
  database_password : string;
  database_name : string;
  secret_key : string;
  algorithm : string;
  access_token_expire_minutes : Z
}.

End config.

(** ** The libraries behind the code

    python-jose and passlib are used through three calls.  A token is kept
    in parsed form: either text that is not a compact JWS at all, or a
    header algorithm, a payload and a signature.  The payloads of the
    embedding carry the two claims this application uses, each absent or
    an integer.  The signature primitive and bcrypt are left abstract;
    what passlib checks before it runs bcrypt is spelled out in [utils]. *)

Module jose.

(** The [dict] handed to [jwt.encode]: ["user_id"] and ["exp"], the
    latter as the application sets it, a [datetime]. *)
Record claims : Type := mkClaims {
  claims_user_id : option Z;
  claims_exp : option Z            (* datetime, microseconds *)
}.

(** The JSON payload inside a token; ["exp"] is a NumericDate, whole
    seconds since the epoch. *)
Record payload : Type := mkPayload {
  user_id : option Z;
  exp : option Z                   (* seconds *)
}.

Inductive token : Type :=
| Malformed (raw : string)
| JWS (alg : string) (body : payload) (signature : string).

(** [calendar.timegm(d.utctimetuple())]: the whole seconds of an instant. *)
Definition timegm (d : Z) : Z := d / 1000000.

End jose.

Class Env : Type := mkEnv {
  settings : config.Settings;
  (* the JWS signature of a header algorithm and payload under a key *)
  jws_sign : string -> string -> jose.payload -> string;
  (* passlib's bcrypt: the digest of a password under a salt; whether the
     context identifies a string as a bcrypt digest (by its prefix);
     whether such a string parses as one (rounds, salt and checksum); and
     the comparison of a password with a digest that parses *)
  bcrypt : string -> string -> string;
  bcrypt_identify : string -> bool;
  bcrypt_from_string : string -> bool;
  bcrypt_verify : string -> string -> bool
}.

(** [from jose import jwt]. *)
Module jwt.
Section Jwt.
Context {env : Env}.

(** [jwt.encode(claims, key, algorithm)]: a [datetime] under ["exp"] is
    replaced by its whole seconds, then header and payload are signed. *)
Definition encode (c : jose.claims) (key alg : string) : jose.token :=
  let body := jose.mkPayload (jose.claims_user_id c)
                             (option_map jose.timegm (jose.claims_exp c)) in
  jose.JWS alg body (jws_sign key alg body).

(** [jwt.decode(token, key, algorithms)] at the instant [now]: [None]
    stands for a raised [JWTError] (text that does not parse, an algorithm
    that is not allowed, a signature that does not verify, or
    [exp < timegm(now)]). *)
Definition decode (now : Z) (token : jose.token) (key : string)
    (algorithms : list string) : option jose.payload :=
  match token with
  | jose.Malformed _ => None
  | jose.JWS alg body signature =>
      if negb (existsb (String.eqb alg) algorithms) then None
      else if negb (String.eqb signature (jws_sign key alg body)) then None
      else match jose.exp body with
           | Some e => if e <? jose.timegm now then None else Some body
           | None => Some body
           end
  end.

End Jwt.
End jwt.

(** ** models.py: the rows of the three tables *)

Module models.

Module Post.
Record t : Type := mk {
  id : Z;
  title : string;
  content : string;
  published : bool;
  created_at : Z;
  owner_id : Z
}.
End Post.

Module User.
Record t : Type := mk {
  id : Z;
  email : string;
  password : string;
  created_at : Z
}.
End User.

Module Vote.
Record t : Type := mk {
  user_id : Z;
  post_id : Z
}.
End Vote.

End models.

(** ** schemas.py: request and response bodies *)

Module schemas.

Module UserCreate.
Record t : Type := mk { email : string; password : string }.
End UserCreate.

(** [UserOut] declares three fields; with [from_attributes = True] it is
    filled by reading exactly these attributes of the ORM object. *)
Module UserOut.
Record t : Type := mk { id : Z; email : string; created_at : Z }.

Definition from_attributes (u : models.User.t) : t :=
  mk (models.User.id u) (models.User.email u) (models.User.created_at u).
End UserOut.

(** [PostBase]/[PostCreate]: [published] defaults to [True] when the
    request body omits it. *)
Module PostCreate.
Record t : Type := mk { title : string; content : string; published : bool }.

Definition parse (title content : string) (published : option bool) : t :=
  mk title content (match published with Some b => b | None => true end).
End PostCreate.

Module Post.
Record t : Type := mk {
  title : string;
  content : string;
  published : bool;
  id : Z;
  created_at : Z;
  owner_id : Z;
  owner : UserOut.t
}.
End Post.

Module PostOut.
Record t : Type := mk { Post : Post.t; votes : Z }.
End PostOut.

Module Token.
Record t : Type := mk { access_token : jose.token; token_type : string }.
End Token.

Module TokenData.
Record t : Type := mk { id : option Z }.
End TokenData.

(** [dir] is a strict integer with [ge=0] and [le=1]. *)
Module Vote.
Record t : Type := mk { post_id : Z; dir : Z }.

Definition valid (v : t) : bool := (0 <=? dir v) && (dir v <=? 1).
End Vote.

End schemas.

(** ** database.py: the store behind a session *)

Module database.

Record Store : Type := mkStore {
  users : list models.User.t;
  posts : list models.Post.t;
  votes : list models.Vote.t;
  users_id_seq : Z;   (* next value of the SERIAL sequence of users.id *)
  posts_id_seq : Z    (* next value of the SERIAL sequence of posts.id *)
}.

(** The database right after the schema of models.py is created: empty
    tables, sequences at 1. *)
Definition empty : Store := mkStore [] [] [] 1 1.

(** A handler runs against the store and either returns or raises. *)
Definition DB (A : Type) : Type := Store -> (Exn + A) * Store.

Definition ret {A : Type} (a : A) : DB A := fun st => (inr a, st).

Definition raise {A : Type} (e : Exn) : DB A := fun st => (inl e, st).

Definition bind {A B : Type} (m : DB A) (k : A -> DB B) : DB B :=
  fun st =>
    match m st with
    | (inl e, st') => (inl e, st')
    | (inr a, st') => k a st'
    end.

(** [db.query(...)]: read the store. *)
Definition query {A : Type} (q : Store -> A) : DB A := fun st => (inr (q st), st).

(** *** Writes

    [db.add(row); db.commit(); db.refresh(row)] is one INSERT whose
    server defaults (the SERIAL id, [now()]) are read back.  Three things
    can refuse it, in this order.  The driver refuses a string parameter
    that holds NUL, before anything is sent.  The id columns are 32-bit
    [Integer]s fed by SERIAL sequences, which end at [INT4_MAX]: past it
    there is no next value.  Last come the constraints declared in
    models.py (primary keys, [unique=True] on users.email, the foreign
    keys); the sequence value is consumed whether or not the INSERT
    passes them. *)

Definition INT4_MAX : Z := 2147483647.

Definition has_user (st : Store) (i : Z) : bool :=
  existsb (fun u => models.User.id u =? i) (users st).

Definition has_post (st : Store) (i : Z) : bool :=
  existsb (fun p => models.Post.id p =? i) (posts st).

Definition has_vote (st : Store) (u p : Z) : bool :=
  existsb (fun v => (models.Vote.user_id v =? u) && (models.Vote.post_id v =? p))
          (votes st).

Definition has_email (st : Store) (e : string) : bool :=
  existsb (fun u => String.eqb (models.User.email u) e) (users st).

Definition insert_user (now : Z) (email password : string) : DB models.User.t :=
  fun st =>
    let row := models.User.mk (users_id_seq st) email password now in
    let st1 := mkStore (users st) (posts st) (votes st)
                       (users_id_seq st + 1) (posts_id_seq st) in
    if has_nul email || has_nul password then (inl ValueError, st)
    else if INT4_MAX <? users_id_seq st then (inl DataError, st)
    else if has_user st (models.User.id row) || has_email st email
    then (inl IntegrityError, st1)
    else (inr row, mkStore (users st ++ [row]) (posts st) (votes st)
                           (users_id_seq st + 1) (posts_id_seq st)).

Definition insert_post (now : Z) (owner_id : Z) (title content : string)
    (published : bool) : DB models.Post.t :=
  fun st =>
    let row := models.Post.mk (posts_id_seq st) title content published now owner_id in
    let st1 := mkStore (users st) (posts st) (votes st)
                       (users_id_seq st) (posts_id_seq st + 1) in
    if has_nul title || has_nul content then (inl ValueError, st)
    else if INT4_MAX <? posts_id_seq st then (inl DataError, st)
    else if has_post st (models.Post.id row) || negb (has_user st owner_id)
    then (inl IntegrityError, st1)
    else (inr row, mkStore (users st) (posts st ++ [row]) (votes st)
                           (users_id_seq st) (posts_id_seq st + 1)).

Definition insert_vote (row : models.Vote.t) : DB unit :=
  fun st =>
    if has_vote st (models.Vote.user_id row) (models.Vote.post_id row)
       || negb (has_user st (models.Vote.user_id row))
       || negb (has_post st (models.Vote.post_id row))
    then (inl IntegrityError, st)
    else (inr tt, mkStore (users st) (posts st) (votes st ++ [row])
                          (users_id_seq st) (posts_id_seq st)).

(** [query.update(values)] of the post router: the three columns of
    [PostCreate.model_dump()] on every row the query selects.  The driver
    refuses a title or content that holds NUL. *)
Definition update_posts (criterion : models.Post.t -> bool)
    (title content : string) (published : bool) : DB unit :=
  fun st =>
    if has_nul title || has_nul content then (inl ValueError, st)
    else
    (inr tt,
     mkStore (users st)
             (map (fun p => if criterion p
                            then models.Post.mk (models.Post.id p) title content published
                                   (models.Post.created_at p) (models.Post.owner_id p)
                            else p) (posts st))
             (votes st) (users_id_seq st) (posts_id_seq st)).

(** [query.delete()] on posts; [ondelete="CASCADE"] on votes.post_id
    removes the votes that reference a deleted row. *)
Definition delete_posts (criterion : models.Post.t -> bool) : DB unit :=
  fun st =>
    let gone := filter criterion (posts st) in
    (inr tt,
     mkStore (users st)
             (filter (fun p => negb (criterion p)) (posts st))
             (filter (fun v => negb (existsb (fun p => models.Post.id p =? models.Vote.post_id v) gone))
                     (votes st))
             (users_id_seq st) (posts_id_seq st)).

Definition delete_votes (criterion : models.Vote.t -> bool) : DB unit :=
  fun st =>
    (inr tt,
     mkStore (users st) (posts st) (filter (fun v => negb (criterion v)) (votes st))
             (users_id_seq st) (posts_id_seq st)).

(** *** The operators of the post queries *)

(** [column LIKE pattern] of PostgreSQL, character by character: [%]
    matches any run of characters, [_] any one character, and a backslash
    takes the next character literally.  (A pattern that ends in a lone
    backslash is an error in PostgreSQL; the patterns built by [contains]
    below end in the [%] it appends, so they never do.) *)
Fixpoint like (pattern : string) : string -> bool :=
  match pattern with
  | EmptyString => fun s => match s with EmptyString => true | String _ _ => false end
  | String c p =>
      if Ascii.eqb c "%"%char then
        fix any (s : string) : bool :=
          like p s || match s with EmptyString => false | String _ s' => any s' end
      else if Ascii.eqb c "_"%char then
        fun s => match s with EmptyString => false | String _ s' => like p s' end
      else if Ascii.eqb c "\"%char then
        match p with
        | EmptyString => fun _ => false
        | String d p' =>
            fun s => match s with
                     | EmptyString => false
                     | String e s' => Ascii.eqb d e && like p' s'
                     end
        end
      else
        fun s => match s with
                 | EmptyString => false
                 | String e s' => Ascii.eqb c e && like p s'
                 end
  end.

(** [column.contains(other)] of SQLAlchemy renders
    [column LIKE '%' || other || '%']; [other] is not escaped
    ([autoescape] is off unless asked for).  A text value of the database
    holds no NUL, so an [other] that holds one is contained in no column
    value (the driver does not even send it: see [post.get_posts]). *)
Definition contains (column other : string) : bool :=
  negb (has_nul other) && like ("%" ++ other ++ "%")%string column.

(** [posts LEFT OUTER JOIN votes ON votes.post_id = posts.id]: a post with
    no vote yields one row whose vote columns are NULL. *)
Definition rows_of (p : models.Post.t) (vs : list models.Vote.t)
    : list (models.Post.t * option models.Vote.t) :=
  match filter (fun v => models.Vote.post_id v =? models.Post.id p) vs with
  | [] => [(p, None)]
  | m => map (fun v => (p, Some v)) m
  end.

Definition outerjoin (ps : list models.Post.t) (vs : list models.Vote.t)
    : list (models.Post.t * option models.Vote.t) :=
  flat_map (fun p => rows_of p vs) ps.

(** [func.count(models.Vote.post_id)] counts the rows of a group whose
    votes.post_id is not NULL. *)
Definition counted (r : models.Post.t * option models.Vote.t) : Z :=
  match snd r with
  | Some _ => 1
  | None => 0
  end.

(** [GROUP BY posts.id] with that count: one output row per id, in order
    of first appearance. *)
Fixpoint group_add (r : models.Post.t * option models.Vote.t)
    (groups : list (models.Post.t * Z)) : list (models.Post.t * Z) :=
  match groups with
  | [] => [(fst r, counted r)]
  | (p, n) :: rest =>
      if models.Post.id p =? models.Post.id (fst r)
      then (p, n + counted r) :: rest
      else (p, n) :: group_add r rest
  end.

Definition group_by_id (rows : list (models.Post.t * option models.Vote.t))
    : list (models.Post.t * Z) :=
  fold_left (fun groups r => group_add r groups) rows [].

(** [ORDER BY posts.id]. *)
Fixpoint order_insert (r : models.Post.t * Z) (sorted : list (models.Post.t * Z))
    : list (models.Post.t * Z) :=
  match sorted with
  | [] => [r]
  | x :: rest =>
      if models.Post.id (fst r) <=? models.Post.id (fst x)
      then r :: sorted
      else x :: order_insert r rest
  end.

Definition order_by_id (rows : list (models.Post.t * Z)) : list (models.Post.t * Z) :=
  fold_right order_insert [] rows.

(** [LIMIT limit OFFSET skip]: both are bigint arguments that PostgreSQL
    requires to be non-negative; the offset is applied first. *)
Definition bigint_count (n : Z) : bool := (0 <=? n) && (n <? 2 ^ 63).

Definition limit_offset {A : Type} (limit skip : Z) (rows : list A) : Exn + list A :=
  if bigint_count limit && bigint_count skip
  then inr (firstn (Z.to_nat limit) (skipn (Z.to_nat skip) rows))
  else inl DataError.

End database.

Import database.

Declare Scope db_scope.
Delimit Scope db_scope with db.
Notation "x <- m ;; k" := (bind m (fun x => k))
  (at level 61, m at next level, right associativity) : db_scope.
Notation "m ;;; k" := (bind m (fun _ => k))
  (at level 61, right associativity) : db_scope.

Local Open Scope db_scope.

(** ** utils.py *)

Module utils.
Section Utils.
Context {env : Env}.

(** passlib refuses a password of more than [MAX_PASSWORD_SIZE]
    characters. *)
Definition MAX_PASSWORD_SIZE : Z := 4096.

(** [pwd_context.hash(password)], with the salt it draws made explicit:
    passlib checks the size of the password, bcrypt refuses NUL in it. *)
Definition hash (salt password : string) : Exn + string :=
  if MAX_PASSWORD_SIZE <? Z.of_nat (String.length password)
  then inl PasswordSizeError
  else if has_nul password then inl ValueError
  else inr (bcrypt salt password).

(** [pwd_context.verify(plain, hashed)]: the context first identifies the
    digest; the handler then checks the size of the password, parses the
    digest (a malformed one is a [ValueError]), refuses NUL in the
    password, and compares. *)
Definition verify_password (plain_password hashed_password : string) : Exn + bool :=
  if negb (bcrypt_identify hashed_password) then inl UnknownHashError
  else if MAX_PASSWORD_SIZE <? Z.of_nat (String.length plain_password)
  then inl PasswordSizeError
  else if negb (bcrypt_from_string hashed_password) then inl ValueError
  else if has_nul plain_password then inl ValueError
  else inr (bcrypt_verify plain_password hashed_password).

End Utils.
End utils.

(** ** oauth2.py *)

Module oauth2.
Section Oauth2.
Context {env : Env}.

Definition SECRET_KEY : string := config.secret_key settings.
Definition ALGORITHM : string := config.algorithm settings.
Definition ACCESS_TOKEN_EXPIRE_MINUTES : Z := config.access_token_expire_minutes settings.

(** [timedelta(minutes=m)], in microseconds. *)
Definition timedelta_minutes (m : Z) : Z := m * 60 * 1000000.

(** [data] is the dict [{"user_id": ...}] that the login route passes. *)
Definition create_access_token (now : Z) (data : jose.claims) : jose.token :=
  let expire := now + timedelta_minutes ACCESS_TOKEN_EXPIRE_MINUTES in
  let to_encode := jose.mkClaims (jose.claims_user_id data) (Some expire) in
  jwt.encode to_encode SECRET_KEY ALGORITHM.

Definition verify_access_token (now : Z) (token : jose.token)
    (credentials_exception : HTTPException) : Exn + schemas.TokenData.t :=
  match jwt.decode now token SECRET_KEY [ALGORITHM] with
  | None => inl (Raise credentials_exception)
  | Some payload =>
      match jose.user_id payload with
      | None => inl (Raise credentials_exception)
      | Some id => inr (schemas.TokenData.mk (Some id))
      end
  end.

Definition credentials_exception : HTTPException :=
  mkHTTPException HTTP_401_UNAUTHORIZED "Could not validate credentials"
                  [("WWW-Authenticate", "Bearer")].

Definition get_current_user (now : Z) (token : jose.token) : DB models.User.t :=
  match verify_access_token now token credentials_exception with
  | inl e => raise e
  | inr token =>
      user <- query (fun st =>
                first (filter (fun u => match schemas.TokenData.id token with
                                        | Some i => models.User.id u =? i
                                        | None => false
                                        end) (users st))) ;;
      match user with
      | None => raise (Raise credentials_exception)
      | Some u => ret u
      end
  end.

End Oauth2.
End oauth2.

(** ** routers/auth.py *)

Module auth.
Section Auth.
Context {env : Env}.

(** The form field [username] is the parameter of the query; the driver
    refuses it when it holds NUL. *)
Definition login (now : Z) (username password : string) : DB schemas.Token.t :=
  user <- (if has_nul username then raise ValueError
           else query (fun st =>
                  first (filter (fun u => String.eqb (models.User.email u) username)
                                (users st)))) ;;
  match user with
  | None =>
      raise (Raise (mkHTTPException HTTP_403_FORBIDDEN "Invalid credentials" []))
  | Some u =>
      match utils.verify_password password (models.User.password u) with
      | inl e => raise e
      | inr verified =>
          if negb verified
          then raise (Raise (mkHTTPException HTTP_403_FORBIDDEN "Invalid credentials" []))
          else
            let access_token :=
              oauth2.create_access_token now
                (jose.mkClaims (Some (models.User.id u)) None) in
            ret (schemas.Token.mk access_token "bearer")
      end
  end.

End Auth.
End auth.

(** ** routers/user.py *)

Module user.
Section User.
Context {env : Env}.

Definition create_user (now : Z) (salt : string) (user : schemas.UserCreate.t)
    : DB models.User.t :=
  match utils.hash salt (schemas.UserCreate.password user) with
  | inl e => raise e
  | inr hashed_password =>
      new_user <- insert_user now (schemas.UserCreate.email user) hashed_password ;;
      ret new_user
  end.

Definition get_user (id : Z) : DB models.User.t :=
  user <- query (fun st =>
            first (filter (fun u => models.User.id u =? id) (users st))) ;;
  match user with
  | None =>
      raise (Raise (mkHTTPException HTTP_404_NOT_FOUND
                      ("User with " ++ str id ++ " was not found") []))
  | Some u => ret u
  end.

End User.
End user.

(** ** routers/post.py *)

Module post.

(** The query shared by [get_posts] and [get_post]:
    [db.query(Post, count(Vote.post_id)).join(Vote, ..., isouter=True)
       .group_by(Post.id)] with a WHERE clause. *)
Definition posts_with_votes (criterion : models.Post.t -> bool) (st : Store)
    : list (models.Post.t * Z) :=
  group_by_id (filter (fun r => criterion (fst r)) (outerjoin (posts st) (votes st))).

(** The parameters [limit], [skip] and [search] carry the defaults 10, 0
    and the empty string of the signature.  The driver refuses a [search]
    that holds NUL before the query is sent. *)
Definition get_posts (current_user : models.User.t)
    (limit skip : option Z) (search : option string)
    : DB (list (models.Post.t * Z)) :=
  let limit := match limit with Some n => n | None => 10 end in
  let skip := match skip with Some n => n | None => 0 end in
  let search := match search with Some s => s | None => EmptyString end in
  fun st =>
    if has_nul search then (inl ValueError, st)
    else
    (limit_offset limit skip
       (order_by_id
          (posts_with_votes (fun p => contains (models.Post.title p) search) st)),
     st).

Definition create_post (now : Z) (post : schemas.PostCreate.t)
    (current_user : models.User.t) : DB models.Post.t :=
  new_post <- insert_post now (models.User.id current_user)
                (schemas.PostCreate.title post) (schemas.PostCreate.content post)
                (schemas.PostCreate.published post) ;;
  ret new_post.

Definition get_post (id : Z) (current_user : models.User.t)
    : DB (models.Post.t * Z) :=
  post <- query (fun st =>
            first (posts_with_votes (fun p => models.Post.id p =? id) st)) ;;
  match post with
  | None =>
      raise (Raise (mkHTTPException HTTP_404_NOT_FOUND
                      ("Post with " ++ str id ++ " was not found") []))
  | Some row => ret row
  end.

(** The response object of [delete_post]: [Response(status_code=204)]. *)
Record Response : Type := mkResponse { response_status_code : Z }.

Definition delete_post (id : Z) (current_user : models.User.t) : DB Response :=
  let post_query := fun p => models.Post.id p =? id in
  post <- query (fun st => first (filter post_query (posts st))) ;;
  match post with
  | None =>
      raise (Raise (mkHTTPException HTTP_404_NOT_FOUND
                      ("Post with " ++ str id ++ " was not found") []))
  | Some post =>
      if negb (models.Post.owner_id post =? models.User.id current_user)
      then raise (Raise (mkHTTPException HTTP_403_FORBIDDEN
                           "You are not the owner of the post" []))
      else
        delete_posts post_query ;;;
        ret (mkResponse HTTP_204_NO_CONTENT)
  end.

Definition update_post (id : Z) (updated_post : schemas.PostCreate.t)
    (current_user : models.User.t) : DB (option models.Post.t) :=
  let post_query := fun p => models.Post.id p =? id in
  post <- query (fun st => first (filter post_query (posts st))) ;;
  match post with
  | None =>
      raise (Raise (mkHTTPException HTTP_404_NOT_FOUND
                      ("Post with " ++ str id ++ " was not found") []))
  | Some post =>
      if negb (models.Post.owner_id post =? models.User.id current_user)
      then raise (Raise (mkHTTPException HTTP_403_FORBIDDEN
                           "You are not the owner of the post" []))
      else
        update_posts post_query (schemas.PostCreate.title updated_post)
          (schemas.PostCreate.content updated_post)
          (schemas.PostCreate.published updated_post) ;;;
        query (fun st => first (filter post_query (posts st)))
  end.

End post.

(** ** routers/vote.py *)

Module vote.

Definition vote (vote : schemas.Vote.t) (current_user : models.User.t)
    : DB string :=
  post <- query (fun st =>
            first (map models.Post.id
                     (filter (fun p => models.Post.id p =? schemas.Vote.post_id vote)
                             (posts st)))) ;;
  match post with
  | None =>
      raise (Raise (mkHTTPException 404
                      ("Post with id " ++ str (schemas.Vote.post_id vote)
                         ++ " does not exist") []))
  | Some _ =>
      let vote_query := fun v =>
        (models.Vote.post_id v =? schemas.Vote.post_id vote)
        && (models.Vote.user_id v =? models.User.id current_user) in
      found_vote <- query (fun st => first (filter vote_query (votes st))) ;;
      if schemas.Vote.dir vote =? 1 then
        match found_vote with
        | Some _ =>
            raise (Raise (mkHTTPException HTTP_409_CONFLICT
                            ("user " ++ str (models.User.id current_user)
                               ++ " has already voted on post "
                               ++ str (schemas.Vote.post_id vote)) []))
        | None =>
            let new_vote := models.Vote.mk (models.User.id current_user)
                                           (schemas.Vote.post_id vote) in
            insert_vote new_vote ;;;
            ret "successfully added vote"
        end
      else
        match found_vote with
        | None =>
            raise (Raise (mkHTTPException HTTP_404_NOT_FOUND "vote does not exist" []))
        | Some _ =>
            delete_votes vote_query ;;;
            ret "successfully deleted vote"
        end
  end.

End vote.

(** ** main.py: the application, one request at a time *)

Module main.
Section Main.
Context {env : Env}.

Inductive Request : Type :=
| Login (username password : string)
| CreateUser (salt : string) (body : schemas.UserCreate.t)
| GetUser (id : Z)
| GetPosts (token : jose.token) (limit skip : option Z) (search : option string)
| CreatePost (token : jose.token) (body : schemas.PostCreate.t)
| GetPost (token : jose.token) (id : Z)
| DeletePost (token : jose.token) (id : Z)
| UpdatePost (token : jose.token) (id : Z) (body : schemas.PostCreate.t)
| Vote (token : jose.token) (body : schemas.Vote.t).

Inductive Body : Type :=
| JsonUserOut (u : schemas.UserOut.t)
| JsonPost (p : schemas.Post.t)
| JsonPostOut (p : schemas.PostOut.t)
| JsonPostOutList (ps : list schemas.PostOut.t)
| JsonToken (t : schemas.Token.t)
| JsonMessage (message : string)
| JsonDetail (detail : string)
| JsonValidationErrors
    (* the 422 body: a JSON list of error objects, left unread *)
| PlainText (text : string)
| NoBody.

Record HTTPResponse : Type := mkHTTPResponse {
  status : Z;
  body : Body;
  response_headers : list (string * string)
}.

(** [response_model=schemas.Post]: the declared columns and the [owner]
    relationship, loaded from the users table.  [None] when the required
    [owner] is missing. *)
Definition render_Post (st : Store) (p : models.Post.t) : option schemas.Post.t :=
  match first (filter (fun u => models.User.id u =? models.Post.owner_id p) (users st)) with
  | Some u =>
      Some (schemas.Post.mk (models.Post.title p) (models.Post.content p)
              (models.Post.published p) (models.Post.id p)
              (models.Post.created_at p) (models.Post.owner_id p)
              (schemas.UserOut.from_attributes u))
  | None => None
  end.

Definition render_PostOut (st : Store) (row : models.Post.t * Z)
    : option schemas.PostOut.t :=
  match render_Post st (fst row) with
  | Some p => Some (schemas.PostOut.mk p (snd row))
  | None => None
  end.

Fixpoint render_PostOutList (st : Store) (rows : list (models.Post.t * Z))
    : option (list schemas.PostOut.t) :=
  match rows with
  | [] => Some []
  | row :: rest =>
      match render_PostOut st row, render_PostOutList st rest with
      | Some p, Some ps => Some (p :: ps)
      | _, _ => None
      end
  end.

(** What is sent for an exception no handler catches: a plain-text 500. *)
Definition internal_server_error : HTTPResponse :=
  mkHTTPResponse 500 (PlainText "Internal Server Error") [].

(** What FastAPI sends for a handler run: the success status of the route
    with the rendered return value, the status, detail and headers of a
    raised [HTTPException], 422 for a body that fails its schema, and 500
    for anything else. *)
Definition respond {A : Type} (success : Z) (render : Store -> A -> option Body)
    (run : DB A) : Store -> HTTPResponse * Store :=
  fun st =>
    match run st with
    | (inr a, st') =>
        match render st' a with
        | Some b => (mkHTTPResponse success b [], st')
        | None => (internal_server_error, st')
        end
    | (inl (Raise e), st') =>
        (mkHTTPResponse (status_code e) (JsonDetail (detail e)) (headers e), st')
    | (inl RequestValidationError, st') =>
        (mkHTTPResponse 422 JsonValidationErrors [], st')
    | (inl _, st') => (internal_server_error, st')
    end.

Definition serve (now : Z) (req : Request) : Store -> HTTPResponse * Store :=
  match req with
  | Login username password =>
      respond 200 (fun _ t => Some (JsonToken t)) (auth.login now username password)
  | CreateUser salt body =>
      respond HTTP_201_CREATED
        (fun _ u => Some (JsonUserOut (schemas.UserOut.from_attributes u)))
        (user.create_user now salt body)
  | GetUser id =>
      respond 200
        (fun _ u => Some (JsonUserOut (schemas.UserOut.from_attributes u)))
        (user.get_user id)
  | GetPosts token limit skip search =>
      respond 200
        (fun st rows => option_map JsonPostOutList (render_PostOutList st rows))
        (current_user <- oauth2.get_current_user now token ;;
         post.get_posts current_user limit skip search)
  | CreatePost token body =>
      respond HTTP_201_CREATED
        (fun st p => option_map JsonPost (render_Post st p))
        (current_user <- oauth2.get_current_user now token ;;
         post.create_post now body current_user)
  | GetPost token id =>
      respond 200
        (fun st row => option_map JsonPostOut (render_PostOut st row))
        (current_user <- oauth2.get_current_user now token ;;
         post.get_post id current_user)
  | DeletePost token id =>
      respond HTTP_204_NO_CONTENT (fun _ _ => Some NoBody)
        (current_user <- oauth2.get_current_user now token ;;
         post.delete_post id current_user)
  | UpdatePost token id body =>
      respond 200
        (fun st p => match p with
                     | Some p => option_map JsonPost (render_Post st p)
                     | None => None
                     end)
        (current_user <- oauth2.get_current_user now token ;;
         post.update_post id body current_user)
  | Vote token body =>
      respond HTTP_201_CREATED (fun _ m => Some (JsonMessage m))
        (current_user <- oauth2.get_current_user now token ;;
         if schemas.Vote.valid body
         then vote.vote body current_user
         else raise RequestValidationError)
  end.

(** The stores the application can be in: the empty database, and what
    any request at any instant leaves behind. *)
Inductive reachable : Store -> Prop :=
| reachable_empty : reachable empty
| reachable_serve (now : Z) (req : Request) (st : Store) :
    reachable st -> reachable (snd (serve now req st)).

(** [serves st st']: some sequence of requests leads from [st] to [st']. *)
Inductive serves (st : Store) : Store -> Prop :=
| serves_none : serves st st
| serves_more (now : Z) (req : Request) (st' : Store) :
    serves st st' -> serves st (snd (serve now req st')).

End Main.
End main.

(** * Specification *)

(** ** The constraints declared in models.py

    Primary keys on users.id, posts.id and votes (user_id, post_id), the
    unique e-mail, the three foreign keys, and ids that were drawn from
    their sequences. *)
Record store_ok (st : Store) : Prop := mk_store_ok {
  ok_user_pk : NoDup (map models.User.id (users st));
  ok_user_email : NoDup (map models.User.email (users st));
  ok_user_seq : forall u, In u (users st) -> models.User.id u < users_id_seq st;
  ok_post_pk : NoDup (map models.Post.id (posts st));
  ok_post_seq : forall p, In p (posts st) -> models.Post.id p < posts_id_seq st;
  ok_post_owner :
    forall p, In p (posts st) -> has_user st (models.Post.owner_id p) = true;
  ok_vote_pk : NoDup (votes st);
  ok_vote_user :
    forall v, In v (votes st) -> has_user st (models.Vote.user_id v) = true;
  ok_vote_post :
    forall v, In v (votes st) -> has_post st (models.Vote.post_id v) = true
}.

(** The vote rows of user [u] on post [p]. *)
Definition votes_of (st : Store) (u p : Z) : list models.Vote.t :=
  filter (fun v => (models.Vote.user_id v =? u) && (models.Vote.post_id v =? p))
         (votes st).

(** At most one vote row per (user, post) pair. *)
Definition votes_unique (st : Store) : Prop :=
  forall u p : Z, (length (votes_of st u p) <= 1)%nat.

(** What one request can do to the store: nothing, or one of the six
    writes of the routers. *)
Inductive write (st : Store) : Store -> Prop :=
| write_nothing : write st st
| write_insert_user (now : Z) (email password : string) :
    write st (snd (insert_user now email password st))
| write_insert_post (now owner : Z) (title content : string) (published : bool) :
    write st (snd (insert_post now owner title content published st))
| write_insert_vote (row : models.Vote.t) :
    write st (snd (insert_vote row st))
| write_update_post (id : Z) (title content : string) (published : bool) :
    write st (snd (update_posts (fun p => models.Post.id p =? id)
                                title content published st))
| write_delete_post (id : Z) :
    write st (snd (delete_posts (fun p => models.Post.id p =? id) st))
| write_delete_vote (user post : Z) :
    write st (snd (delete_votes
                     (fun v => (models.Vote.post_id v =? post)
                               && (models.Vote.user_id v =? user)) st)).

(** The number of vote rows that reference post [i]. *)
Definition vote_count (st : Store) (i : Z) : Z :=
  Z.of_nat (length (filter (fun v => models.Vote.post_id v =? i) (votes st))).

(** [s] is a substring of [t]. *)
Definition occurs_in (s t : string) : Prop :=
  exists before after : string, t = (before ++ s ++ after)%string.

(** A search string without the characters LIKE gives a meaning to. *)
Definition like_special (c : ascii) : bool :=
  Ascii.eqb c "%"%char || Ascii.eqb c "_"%char || Ascii.eqb c "\"%char.

Fixpoint plain (s : string) : bool :=
  match s with
  | EmptyString => true
  | String c s' => negb (like_special c) && plain s'
  end.

(** No group of [groups] is for post id [i]. *)
Definition fresh_in (i : Z) (groups : list (models.Post.t * Z)) : Prop :=
  forall g, In g groups -> models.Post.id (fst g) <> i.

(** Rows in ascending order of post id. *)
Definition ascending (rows : list (models.Post.t * Z)) : Prop :=
  StronglySorted (fun a b => models.Post.id (fst a) < models.Post.id (fst b)) rows.

(** A post row, and a store, with the published flags set by [f]. *)
Definition set_published (f : models.Post.t -> bool) (p : models.Post.t)
    : models.Post.t :=
  models.Post.mk (models.Post.id p) (models.Post.title p) (models.Post.content p)
                 (f p) (models.Post.created_at p) (models.Post.owner_id p).

Definition republish (f : models.Post.t -> bool) (st : Store) : Store :=
  mkStore (users st) (map (set_published f) (posts st)) (votes st)
          (users_id_seq st) (posts_id_seq st).

(** A user row with its password digest blanked, and stores that differ
    at most in the password digests they hold. *)
Definition forget_password (u : models.User.t) : models.User.t :=
  models.User.mk (models.User.id u) (models.User.email u) EmptyString
                 (models.User.created_at u).

Definition same_up_to_passwords (st1 st2 : Store) : Prop :=
  map forget_password (users st1) = map forget_password (users st2)
  /\ posts st1 = posts st2
  /\ votes st1 = votes st2
  /\ users_id_seq st1 = users_id_seq st2
  /\ posts_id_seq st1 = posts_id_seq st2.

(** The token a request carries, for the routes that depend on
    [get_current_user]. *)
Definition request_token {env : Env} (req : main.Request) : option jose.token :=
  match req with
  | main.Login _ _ | main.CreateUser _ _ | main.GetUser _ => None
  | main.GetPosts token _ _ _ | main.CreatePost token _ | main.GetPost token _
  | main.DeletePost token _ | main.UpdatePost token _ _ | main.Vote token _ =>
      Some token
  end.

(** [out] is what the response model [PostOut] shows of [row]: the
    columns of the post, the public record of the user row that owns it,
    and the count. *)
Definition rendered (st : Store) (row : models.Post.t * Z)
    (out : schemas.PostOut.t) : Prop :=
  exists u,
    In u (users st)
    /\ models.User.id u = models.Post.owner_id (fst row)
    /\ out = schemas.PostOut.mk
               (schemas.Post.mk (models.Post.title (fst row))
                  (models.Post.content (fst row)) (models.Post.published (fst row))
                  (models.Post.id (fst row)) (models.Post.created_at (fst row))
                  (models.Post.owner_id (fst row))
                  (schemas.UserOut.from_attributes u))
               (snd row).

(** The rows of a store, without the sequences. *)
Definition tables (st : Store)
    : list models.User.t * list models.Post.t * list models.Vote.t :=
  (users st, posts st, votes st).

(** ** A concrete deployment

    Settings in the shape of the .env file and stand-ins for the two
    cryptographic primitives, to run the handlers on examples. *)
Definition example_settings : config.Settings :=
  config.mkSettings "localhost" 5432 "postgres" "password123" "fastapi"
    "09d25e094faa" "HS256" 30.

Definition example_sign (key alg : string) (body : jose.payload) : string :=
  (key ++ "." ++ alg ++ "."
     ++ match jose.user_id body with Some i => str i | None => "-" end ++ "."
     ++ match jose.exp body with Some e => str e | None => "-" end)%string.

Definition example_salt (digest : string) : string :=
  match String.index 4 "$" digest with
  | Some n => String.substring 4 (n - 4) digest
  | None => EmptyString
  end.

Definition example_env : Env :=
  mkEnv example_settings example_sign
        (fun salt password => ("$2b$" ++ salt ++ "$" ++ password)%string)
        (fun digest => String.prefix "$2b$" digest)
        (fun digest =>
           match String.index 4 "$" digest with Some _ => true | None => false end)
        (fun password digest =>
           String.eqb digest ("$2b$" ++ example_salt digest ++ "$" ++ password)%string).

(** One registered user, one post of theirs and a token for them; the
    store is what registering and posting leave behind on an empty
    database. *)
Definition example_user : models.User.t :=
  models.User.mk 1 "ann@example.com" "$2b$salt$secret" 0.

Definition example_post : models.Post.t :=
  models.Post.mk 1 "abc" "cba" false 5 1.

Definition example_store : Store :=
  mkStore [example_user] [example_post] [] 2 2.

Definition example_token : jose.token :=
  @oauth2.create_access_token example_env 0 (jose.mkClaims (Some 1) None).

(** * Properties *)

Local Close Scope db_scope.

(** ** Query results *)

Section QueryFacts.
Context {A : Type}.
Implicit Types (f : A -> bool) (l : list A).

Lemma first_filter_None f l :
  first (filter f l) = None <-> (forall x, In x l -> f x = false).
Proof.
  induction l as [|a l IH]; simpl.
  - split; [intros _ x [] | reflexivity].
  - destruct (f a) eqn:Ha; simpl.
    + split; [discriminate | intros H; specialize (H a (or_introl eq_refl)); congruence].
    + rewrite IH. split.
      * intros H x [<-|Hx]; auto.
      * intros H x Hx. apply H. now right.
Qed.

Lemma first_filter_Some f l x :
  first (filter f l) = Some x -> In x l /\ f x = true.
Proof.
  induction l as [|a l IH]; simpl; [discriminate|].
  destruct (f a) eqn:Ha; simpl.
  - intros [= <-]. auto.
  - intros H. destruct (IH H). auto.
Qed.

Lemma existsb_false f l :
  existsb f l = false <-> (forall x, In x l -> f x = false).
Proof.
  induction l as [|a l IH]; simpl.
  - split; [intros _ x [] | reflexivity].
  - rewrite orb_false_iff, IH. split.
    + intros [Ha H] x [<-|Hx]; auto.
    + intros H. split; [apply H; now left | intros x Hx; apply H; now right].
Qed.

Lemma first_filter_existsb f l :
  first (filter f l) = None <-> existsb f l = false.
Proof. now rewrite first_filter_None, existsb_false. Qed.

End QueryFacts.

Lemma vote_eta (v : models.Vote.t) :
  v = models.Vote.mk (models.Vote.user_id v) (models.Vote.post_id v).
Proof. now destruct v. Qed.

(** The row condition of the vote router selects one key. *)
Lemma vote_query_iff (u p : Z) (v : models.Vote.t) :
  (models.Vote.post_id v =? p) && (models.Vote.user_id v =? u) = true
  <-> v = models.Vote.mk u p.
Proof.
  rewrite andb_true_iff, !Z.eqb_eq. destruct v as [vu vp]; simpl.
  split; [intros [-> ->]; reflexivity | intros [= -> ->]; auto].
Qed.

Lemma has_user_true (st : Store) (i : Z) :
  has_user st i = true <-> exists u, In u (users st) /\ models.User.id u = i.
Proof.
  unfold has_user. rewrite existsb_exists.
  split; intros (u & Hu & H); exists u; split; auto; now apply Z.eqb_eq.
Qed.

Lemma has_post_true (st : Store) (i : Z) :
  has_post st i = true <-> exists p, In p (posts st) /\ models.Post.id p = i.
Proof.
  unfold has_post. rewrite existsb_exists.
  split; intros (p & Hp & H); exists p; split; auto; now apply Z.eqb_eq.
Qed.

Lemma has_vote_true (st : Store) (u p : Z) :
  has_vote st u p = true <-> In (models.Vote.mk u p) (votes st).
Proof.
  unfold has_vote. rewrite existsb_exists. split.
  - intros (v & Hv & H). rewrite andb_comm in H.
    apply vote_query_iff in H. now subst.
  - intros H. exists (models.Vote.mk u p). split; [assumption|].
    simpl. now rewrite !Z.eqb_refl.
Qed.

(** A resolved caller is a row of the users table, and resolving does not
    write. *)
Lemma get_current_user_inv {env : Env} (now : Z) (token : jose.token)
    (st st' : Store) (c : models.User.t) :
  oauth2.get_current_user now token st = (inr c, st') ->
  st' = st /\ In c (users st).
Proof.
  unfold oauth2.get_current_user.
  destruct (oauth2.verify_access_token now token oauth2.credentials_exception)
    as [e|td]; [discriminate|].
  unfold bind, query.
  destruct (first _) as [u|] eqn:E; [|discriminate].
  unfold ret. intros [= <- <-]. split; [reflexivity|].
  now apply first_filter_Some in E.
Qed.

(** ** The vote router *)

Lemma vote_post_lookup (st : Store) (i : Z) :
  first (map models.Post.id (filter (fun p => models.Post.id p =? i) (posts st)))
  = if has_post st i then Some i else None.
Proof.
  unfold has_post. induction (posts st) as [|p ps IH]; simpl; [reflexivity|].
  destruct (models.Post.id p =? i) eqn:E; simpl; [|exact IH].
  apply Z.eqb_eq in E. now rewrite E.
Qed.

Lemma vote_lookup (st : Store) (u p : Z) :
  first (filter (fun v => (models.Vote.post_id v =? p) && (models.Vote.user_id v =? u))
                (votes st))
  = if has_vote st u p then Some (models.Vote.mk u p) else None.
Proof.
  destruct (has_vote st u p) eqn:E.
  - destruct (first _) as [v|] eqn:F.
    + apply first_filter_Some in F. destruct F as [_ F].
      apply vote_query_iff in F. now subst.
    + rewrite first_filter_None in F. apply has_vote_true in E.
      specialize (F _ E). simpl in F. now rewrite !Z.eqb_refl in F.
  - apply first_filter_None. intros v Hv.
    destruct (_ && _) eqn:F; [|reflexivity].
    apply vote_query_iff in F. subst v.
    apply has_vote_true in Hv. congruence.
Qed.

(** C1.  The vote operation of an authenticated caller [c] on
    [(postId, dir)] with [dir] 0 or 1: a missing post is 404 and leaves
    the store as it was; on an existing post, casting over an existing vote
    is 409, casting otherwise appends exactly the row [(c, postId)] and
    succeeds, retracting a missing vote is 404, and retracting otherwise
    removes exactly the row [(c, postId)] and succeeds. *)
Theorem vote_cast_or_retract {env : Env} (now : Z) (token : jose.token)
    (st : Store) (c : models.User.t) (postId dir : Z) :
  oauth2.get_current_user now token st = (inr c, st) ->
  dir = 0 \/ dir = 1 ->
  let request := schemas.Vote.mk postId dir in
  let key := models.Vote.mk (models.User.id c) postId in
  let outcome := vote.vote request c st in
  ((forall p, In p (posts st) -> models.Post.id p <> postId) ->
   outcome =
     (inl (Raise (mkHTTPException HTTP_404_NOT_FOUND
             ("Post with id " ++ str postId ++ " does not exist") [])), st))
  /\
  ((exists p, In p (posts st) /\ models.Post.id p = postId) ->
   (dir = 1 -> In key (votes st) ->
    outcome =
      (inl (Raise (mkHTTPException HTTP_409_CONFLICT
              ("user " ++ str (models.User.id c) ++ " has already voted on post "
                 ++ str postId) [])), st))
   /\
   (dir = 1 -> ~ In key (votes st) ->
    outcome =
      (inr "successfully added vote",
       mkStore (users st) (posts st) (votes st ++ [key])
               (users_id_seq st) (posts_id_seq st)))
   /\
   (dir = 0 -> ~ In key (votes st) ->
    outcome =
      (inl (Raise (mkHTTPException HTTP_404_NOT_FOUND "vote does not exist" [])), st))
   /\
   (dir = 0 -> In key (votes st) ->
    exists remaining,
      outcome =
        (inr "successfully deleted vote",
         mkStore (users st) (posts st) remaining (users_id_seq st) (posts_id_seq st))
      /\ remaining = filter (fun v => negb ((models.Vote.post_id v =? postId)
                                            && (models.Vote.user_id v =? models.User.id c)))
                            (votes st)
      /\ (forall v, In v remaining <-> In v (votes st) /\ v <> key))).
Proof.
  intros Hauth Hdir request key outcome.
  apply get_current_user_inv in Hauth. destruct Hauth as [_ Hc].
  assert (Huser : has_user st (models.User.id c) = true)
    by (apply has_user_true; eauto).
  subst outcome. unfold vote.vote, bind, query. simpl.
  rewrite vote_post_lookup.
  split.
  - intros Hnone.
    destruct (has_post st postId) eqn:Hp; [|reflexivity].
    apply has_post_true in Hp. destruct Hp as (p & Hp & Hid).
    now elim (Hnone p Hp).
  - intros Hsome. apply has_post_true in Hsome. rewrite Hsome.
    rewrite vote_lookup.
    repeat split.
    + intros -> Hin. apply has_vote_true in Hin. fold key. now rewrite Hin.
    + intros -> Hnot.
      destruct (has_vote st (models.User.id c) postId) eqn:Hv;
        [apply has_vote_true in Hv; contradiction|].
      simpl. unfold insert_vote, ret. simpl. now rewrite Hv, Huser, Hsome.
    + intros -> Hnot.
      destruct (has_vote st (models.User.id c) postId) eqn:Hv;
        [apply has_vote_true in Hv; contradiction|].
      reflexivity.
    + intros -> Hin. apply has_vote_true in Hin. rewrite Hin. simpl.
      unfold delete_votes, ret. simpl.
      eexists. split; [reflexivity|]. split; [reflexivity|].
      intros v. rewrite filter_In. rewrite negb_true_iff.
      split; intros [Hv Hne]; split; auto.
      * intros ->. simpl in Hne. now rewrite !Z.eqb_refl in Hne.
      * destruct (_ && _) eqn:F; [|reflexivity].
        apply vote_query_iff in F. contradiction.
Qed.

(** ** The post router: ownership *)

Lemma first_filter_pk (ps : list models.Post.t) (p : models.Post.t) :
  NoDup (map models.Post.id ps) -> In p ps ->
  first (filter (fun q => models.Post.id q =? models.Post.id p) ps) = Some p.
Proof.
  induction ps as [|a ps IH]; simpl; [intros _ []|].
  intros Hnd [->|Hin].
  - now rewrite Z.eqb_refl.
  - inversion Hnd as [|? ? Hnotin Hnd']; subst.
    destruct (models.Post.id a =? models.Post.id p) eqn:E.
    + apply Z.eqb_eq in E. elim Hnotin. rewrite E. now apply in_map.
    + now apply IH.
Qed.

Lemma first_filter_map_id (ps : list models.Post.t) (i : Z)
    (g : models.Post.t -> models.Post.t) :
  (forall q, models.Post.id (g q) = models.Post.id q) ->
  first (filter (fun q => models.Post.id q =? i)
                (map (fun q => if models.Post.id q =? i then g q else q) ps))
  = option_map g (first (filter (fun q => models.Post.id q =? i) ps)).
Proof.
  intros Hg. induction ps as [|a ps IH]; simpl; [reflexivity|].
  destruct (models.Post.id a =? i) eqn:E; simpl.
  - now rewrite Hg, E.
  - now rewrite E.
Qed.

Lemma cascade_one_post (ps : list models.Post.t) (i : Z) (v : models.Vote.t) :
  (exists p, In p ps /\ models.Post.id p = i) ->
  existsb (fun p => models.Post.id p =? models.Vote.post_id v)
          (filter (fun p => models.Post.id p =? i) ps)
  = (models.Vote.post_id v =? i).
Proof.
  intros (p & Hp & Hid).
  destruct (models.Vote.post_id v =? i) eqn:E.
  - apply Z.eqb_eq in E. apply existsb_exists. exists p. split.
    + apply filter_In. split; [assumption|]. now apply Z.eqb_eq.
    + apply Z.eqb_eq. congruence.
  - apply existsb_false. intros q Hq. apply filter_In in Hq.
    destruct Hq as [_ Hq]. apply Z.eqb_eq in Hq.
    apply Z.eqb_neq. apply Z.eqb_neq in E. congruence.
Qed.

(** The update handler, by the lookup and the two checks it makes. *)
Lemma update_post_eval (id : Z) (body : schemas.PostCreate.t)
    (c : models.User.t) (st : Store) :
  post.update_post id body c st
  = match first (filter (fun q => models.Post.id q =? id) (posts st)) with
    | None =>
        (inl (Raise (mkHTTPException HTTP_404_NOT_FOUND
                       ("Post with " ++ str id ++ " was not found") [])), st)
    | Some p =>
        if negb (models.Post.owner_id p =? models.User.id c)
        then (inl (Raise (mkHTTPException HTTP_403_FORBIDDEN
                            "You are not the owner of the post" [])), st)
        else if has_nul (schemas.PostCreate.title body)
                || has_nul (schemas.PostCreate.content body)
        then (inl ValueError, st)
        else
          let updated :=
            models.Post.mk id (schemas.PostCreate.title body)
              (schemas.PostCreate.content body) (schemas.PostCreate.published body)
              (models.Post.created_at p) (models.Post.owner_id p) in
          (inr (Some updated),
           mkStore (users st)
                   (map (fun q =>
                           if models.Post.id q =? id
                           then models.Post.mk (models.Post.id q)
                                  (schemas.PostCreate.title body)
                                  (schemas.PostCreate.content body)
                                  (schemas.PostCreate.published body)
                                  (models.Post.created_at q) (models.Post.owner_id q)
                           else q) (posts st))
                   (votes st) (users_id_seq st) (posts_id_seq st))
    end.
Proof.
  unfold post.update_post, bind, query.
  destruct (first _) as [p|] eqn:F; [|reflexivity].
  destruct (negb _); [reflexivity|].
  unfold update_posts. destruct (_ || _); [reflexivity|].
  cbv zeta. cbn [fst snd posts].
  rewrite (first_filter_map_id (posts st) id
             (fun q => models.Post.mk (models.Post.id q)
                         (schemas.PostCreate.title body)
                         (schemas.PostCreate.content body)
                         (schemas.PostCreate.published body)
                         (models.Post.created_at q) (models.Post.owner_id q)))
    by reflexivity.
  rewrite F. simpl.
  apply first_filter_Some in F. destruct F as [_ F]. apply Z.eqb_eq in F.
  now rewrite F.
Qed.

(** C2, as stated, fails: the owner of a post sends an update whose title
    holds the NUL character; the driver refuses the parameter, no post is
    returned and nothing is replaced. *)
Lemma owner_update_refused :
  let payload := schemas.PostCreate.mk (String "a" (String "000" "b")) "cba" true in
  In example_post (posts example_store)
  /\ models.Post.owner_id example_post = models.User.id example_user
  /\ post.update_post (models.Post.id example_post) payload example_user example_store
     = (inl ValueError, example_store).
Proof. repeat split. now left. Qed.

(** C2, amended.  Update and delete of post [id] by caller [c]: 404 when
    no post has that id; 403 when the post is owned by someone else,
    whatever the payload; for the owner, delete removes the row (and, by
    cascade, its votes) and answers 204, and update, when neither title
    nor content holds the NUL character, replaces title, content and
    published and returns the updated row (when one of them does, the
    update is refused and nothing changes). *)
Theorem update_delete_guarded (st : Store) (c : models.User.t) (id : Z)
    (payload : schemas.PostCreate.t) :
  NoDup (map models.Post.id (posts st)) ->
  let not_found :=
    Raise (mkHTTPException HTTP_404_NOT_FOUND
             ("Post with " ++ str id ++ " was not found") []) in
  let forbidden :=
    Raise (mkHTTPException HTTP_403_FORBIDDEN "You are not the owner of the post" []) in
  ((forall p, In p (posts st) -> models.Post.id p <> id) ->
   post.update_post id payload c st = (inl not_found, st)
   /\ post.delete_post id c st = (inl not_found, st))
  /\
  (forall p, In p (posts st) -> models.Post.id p = id ->
   models.Post.owner_id p <> models.User.id c ->
   post.update_post id payload c st = (inl forbidden, st)
   /\ post.delete_post id c st = (inl forbidden, st))
  /\
  (forall p, In p (posts st) -> models.Post.id p = id ->
   models.Post.owner_id p = models.User.id c ->
   let updated :=
     models.Post.mk id (schemas.PostCreate.title payload)
       (schemas.PostCreate.content payload) (schemas.PostCreate.published payload)
       (models.Post.created_at p) (models.Post.owner_id p) in
   (has_nul (schemas.PostCreate.title payload) = false ->
    has_nul (schemas.PostCreate.content payload) = false ->
    post.update_post id payload c st =
      (inr (Some updated),
       mkStore (users st)
               (map (fun q => if models.Post.id q =? id then updated else q) (posts st))
               (votes st) (users_id_seq st) (posts_id_seq st)))
   /\ ((has_nul (schemas.PostCreate.title payload)
        || has_nul (schemas.PostCreate.content payload)) = true ->
       post.update_post id payload c st = (inl ValueError, st))
   /\ post.delete_post id c st =
        (inr (post.mkResponse HTTP_204_NO_CONTENT),
         mkStore (users st)
                 (filter (fun q => negb (models.Post.id q =? id)) (posts st))
                 (filter (fun v => negb (models.Vote.post_id v =? id)) (votes st))
                 (users_id_seq st) (posts_id_seq st))).
Proof.
  intros Hpk not_found forbidden.
  rewrite update_post_eval.
  unfold post.delete_post, bind, query.
  split; [|split].
  - intros Hnone.
    assert (E : first (filter (fun q => models.Post.id q =? id) (posts st)) = None).
    { apply first_filter_None. intros q Hq. apply Z.eqb_neq. auto. }
    rewrite E. split; reflexivity.
  - intros p Hp <- Hown.
    rewrite (first_filter_pk _ _ Hpk Hp).
    apply Z.eqb_neq in Hown. rewrite Hown. split; reflexivity.
  - intros p Hp Hid Hown. subst id.
    set (updated := models.Post.mk (models.Post.id p) _ _ _ _ _).
    rewrite (first_filter_pk _ _ Hpk Hp).
    assert (Eo : (models.Post.owner_id p =? models.User.id c) = true)
      by (apply Z.eqb_eq; assumption).
    rewrite Eo. simpl.
    split; [|split].
    + intros Ht Hc. rewrite Ht, Hc. simpl. f_equal. f_equal.
      apply map_ext_in. intros q Hq.
      destruct (models.Post.id q =? models.Post.id p) eqn:E; [|reflexivity].
      apply Z.eqb_eq in E. subst updated.
      assert (q = p).
      { pose proof (first_filter_pk _ _ Hpk Hq) as Fq.
        pose proof (first_filter_pk _ _ Hpk Hp) as Fp.
        rewrite E in Fq. congruence. }
      subst q. reflexivity.
    + intros Hnul. now rewrite Hnul.
    + unfold delete_posts, ret. simpl.
      f_equal. f_equal. apply filter_ext. intros v. f_equal.
      apply cascade_one_post. eauto.
Qed.

(** ** Every request is one write *)

Section ServeWrites.
Context {env : Env}.

Lemma get_current_user_reads (now : Z) (token : jose.token) (st : Store) :
  snd (oauth2.get_current_user now token st) = st.
Proof.
  unfold oauth2.get_current_user.
  destruct (oauth2.verify_access_token _ _ _); [reflexivity|].
  unfold bind, query. now destruct (first _).
Qed.

Lemma authenticated_write {A : Type} (now : Z) (token : jose.token)
    (k : models.User.t -> DB A) (st : Store) :
  (forall c, In c (users st) -> write st (snd (k c st))) ->
  write st (snd (bind (oauth2.get_current_user now token) k st)).
Proof.
  intros Hk. unfold bind.
  destruct (oauth2.get_current_user now token st) as [[e|c] st'] eqn:E.
  - pose proof (get_current_user_reads now token st) as R.
    rewrite E in R. simpl in *. subst. constructor.
  - apply get_current_user_inv in E. destruct E as [-> Hc]. auto.
Qed.

Lemma respond_state {A : Type} (success : Z)
    (render : Store -> A -> option main.Body) (run : DB A) (st : Store) :
  snd (main.respond success render run st) = snd (run st).
Proof.
  unfold main.respond. destruct (run st) as [[[]|a] st']; simpl;
    try reflexivity.
  now destruct (render st' a).
Qed.

Lemma vote_write (body : schemas.Vote.t) (c : models.User.t) (st : Store) :
  write st (snd (vote.vote body c st)).
Proof.
  unfold vote.vote, bind, query. simpl.
  rewrite vote_post_lookup.
  destruct (has_post st _); [|constructor].
  rewrite vote_lookup.
  destruct (schemas.Vote.dir body =? 1).
  - destruct (has_vote st _ _); [constructor|].
    pose proof (write_insert_vote st
      (models.Vote.mk (models.User.id c) (schemas.Vote.post_id body))) as W.
    destruct (insert_vote _ st) as [[e|[]] st']; exact W.
  - destruct (has_vote st _ _); [|constructor].
    apply (write_delete_vote st (models.User.id c) (schemas.Vote.post_id body)).
Qed.

Lemma update_post_write (id : Z) (body : schemas.PostCreate.t)
    (c : models.User.t) (st : Store) :
  write st (snd (post.update_post id body c st)).
Proof.
  unfold post.update_post, bind, query.
  destruct (first _) as [p|]; [|constructor].
  destruct (negb _); [constructor|].
  pose proof (write_update_post st id (schemas.PostCreate.title body)
                (schemas.PostCreate.content body)
                (schemas.PostCreate.published body)) as W.
  destruct (update_posts _ _ _ _ st) as [[e|u] st']; exact W.
Qed.

Lemma delete_post_write (id : Z) (c : models.User.t) (st : Store) :
  write st (snd (post.delete_post id c st)).
Proof.
  unfold post.delete_post, bind, query.
  destruct (first _) as [p|]; [|constructor].
  destruct (negb _); [constructor|].
  apply (write_delete_post st id).
Qed.

Lemma create_post_write (now : Z) (body : schemas.PostCreate.t)
    (c : models.User.t) (st : Store) :
  write st (snd (post.create_post now body c st)).
Proof.
  unfold post.create_post, bind.
  pose proof (write_insert_post st now (models.User.id c)
                (schemas.PostCreate.title body) (schemas.PostCreate.content body)
                (schemas.PostCreate.published body)) as W.
  destruct (insert_post _ _ _ _ _ st) as [[e|p] st']; exact W.
Qed.

Lemma serve_write (now : Z) (req : main.Request) (st : Store) :
  write st (snd (main.serve now req st)).
Proof.
  destruct req; unfold main.serve; rewrite respond_state.
  - unfold auth.login, bind, query, raise.
    destruct (has_nul _); [constructor|].
    destruct (first _) as [u|]; [|constructor].
    destruct (utils.verify_password _ _) as [e|[|]]; constructor.
  - unfold user.create_user, bind.
    destruct (utils.hash salt _) as [e|hashed_password]; [constructor|].
    pose proof (write_insert_user st now (schemas.UserCreate.email body)
                  hashed_password) as W.
    destruct (insert_user _ _ _ st) as [[e|u] st']; exact W.
  - unfold user.get_user, bind, query.
    destruct (first _); constructor.
  - apply authenticated_write. intros c _.
    unfold post.get_posts. destruct (has_nul _); constructor.
  - apply authenticated_write. intros c _. apply create_post_write.
  - apply authenticated_write. intros c _.
    unfold post.get_post, bind, query. destruct (first _); constructor.
  - apply authenticated_write. intros c _. apply delete_post_write.
  - apply authenticated_write. intros c _. apply update_post_write.
  - apply authenticated_write. intros c _.
    destruct (schemas.Vote.valid body); [apply vote_write | constructor].
Qed.

End ServeWrites.

(** ** The schema constraints are invariants *)

Lemma NoDup_snoc {A : Type} (l : list A) (x : A) :
  NoDup l -> ~ In x l -> NoDup (l ++ [x]).
Proof.
  intros Hl Hx. apply NoDup_app; [assumption | repeat constructor; intros [] |].
  intros a Ha [<-|[]]. contradiction.
Qed.

Lemma NoDup_map_filter {A B : Type} (f : A -> B) (g : A -> bool) (l : list A) :
  NoDup (map f l) -> NoDup (map f (filter g l)).
Proof.
  induction l as [|a l IH]; simpl; [auto|].
  intros H. inversion H as [|? ? Hnotin Hnd]; subst.
  destruct (g a); simpl; [|auto].
  constructor; [|auto].
  intros Hin. apply Hnotin. apply in_map_iff in Hin.
  destruct Hin as (x & Hx & Hin). apply filter_In in Hin.
  rewrite <- Hx. apply in_map. tauto.
Qed.

Lemma votes_unique_NoDup (st : Store) : votes_unique st <-> NoDup (votes st).
Proof.
  unfold votes_unique, votes_of. induction (votes st) as [|a l IH].
  - split; [constructor | intros _ u p; simpl; lia].
  - split.
    + intros H. constructor.
      * intros Hin. specialize (H (models.Vote.user_id a) (models.Vote.post_id a)).
        simpl in H. rewrite !Z.eqb_refl in H. simpl in H.
        assert (In a (filter (fun v => (models.Vote.user_id v =? models.Vote.user_id a)
                                       && (models.Vote.post_id v =? models.Vote.post_id a)) l))
          as Ha by (apply filter_In; rewrite !Z.eqb_refl; auto).
        destruct (filter _ l); [destruct Ha | simpl in H; lia].
      * apply IH. intros u p. specialize (H u p). simpl in H.
        destruct (_ && _) in H; simpl in H; lia.
    + intros H u p. inversion H as [|? ? Hnotin Hnd]; subst.
      simpl. destruct (_ && _) eqn:E; [|now apply IH].
      rewrite andb_comm in E. apply vote_query_iff in E. subst a.
      destruct (filter _ l) as [|b l'] eqn:F; [simpl; lia|].
      assert (In b (filter (fun v => (models.Vote.user_id v =? u)
                                     && (models.Vote.post_id v =? p)) l)) as Hb
        by (rewrite F; now left).
      apply filter_In in Hb. destruct Hb as [Hb E].
      rewrite andb_comm in E. apply vote_query_iff in E. subst b. contradiction.
Qed.

(** The composite key alone: an INSERT keeps the vote rows distinct, and
    so does every other write. *)
Lemma write_votes_NoDup (st st' : Store) :
  write st st' -> NoDup (votes st) -> NoDup (votes st').
Proof.
  intros W H. destruct W; simpl; auto.
  - unfold insert_user.
    destruct (_ || _); [assumption|]. destruct (_ <? _); [assumption|].
    now destruct (_ || _).
  - unfold insert_post.
    destruct (_ || _); [assumption|]. destruct (_ <? _); [assumption|].
    now destruct (_ || _).
  - unfold insert_vote.
    destruct (has_vote st _ _) eqn:Hv; simpl; [assumption|].
    destruct (negb _ || negb _); simpl; [assumption|].
    apply NoDup_snoc; [assumption|].
    intros Hin. rewrite (vote_eta row) in Hin. apply has_vote_true in Hin. congruence.
  - unfold update_posts. now destruct (_ || _).
  - now apply NoDup_filter.
  - now apply NoDup_filter.
Qed.

Lemma has_user_snoc (st : Store) (us : list models.User.t) (i : Z) :
  existsb (fun u => models.User.id u =? i) (users st) = true ->
  existsb (fun u => models.User.id u =? i) (users st ++ us) = true.
Proof. intros H. rewrite existsb_app, H. reflexivity. Qed.

Lemma has_post_snoc (st : Store) (ps : list models.Post.t) (i : Z) :
  existsb (fun p => models.Post.id p =? i) (posts st) = true ->
  existsb (fun p => models.Post.id p =? i) (posts st ++ ps) = true.
Proof. intros H. rewrite existsb_app, H. reflexivity. Qed.

Ltac split_write_check :=
  match goal with
  | |- context [if ?b then _ else _] => destruct b eqn:?E
  end.

Lemma store_ok_write (st st' : Store) :
  write st st' -> store_ok st -> store_ok st'.
Proof.
  intros W H.
  pose proof (write_votes_NoDup _ _ W (ok_vote_pk _ H)) as Hvotes.
  destruct H as [Hupk Hemail Huseq Hppk Hpseq Hpown _ Hvu Hvp].
  destruct W;
    unfold insert_user, insert_post, insert_vote, update_posts, delete_posts,
           delete_votes, has_user, has_post, has_vote, has_email in *;
    simpl in *.
  - now constructor.
  - (* INSERT INTO users *)
    split_write_check; simpl in *; [now constructor|]. rename E into Enul.
    split_write_check; simpl in *; [now constructor|]. rename E into Eseq.
    split_write_check; simpl in *.
    + constructor; simpl; auto. intros u Hu. specialize (Huseq u Hu). lia.
    + apply orb_false_iff in E. destruct E as [Eid Eem].
      constructor; unfold has_user, has_post; simpl; auto.
      * rewrite map_app. apply NoDup_snoc; [assumption|]. simpl.
        intros Hin. apply in_map_iff in Hin. destruct Hin as (u & Hid & Hu).
        specialize (Huseq u Hu). lia.
      * rewrite map_app. apply NoDup_snoc; [assumption|]. simpl.
        intros Hin. apply in_map_iff in Hin. destruct Hin as (u & Hid & Hu).
        rewrite existsb_false in Eem.
        specialize (Eem u Hu). simpl in Eem. rewrite Hid, String.eqb_refl in Eem.
        discriminate.
      * intros u Hu. apply in_app_iff in Hu. destruct Hu as [Hu|[<-|[]]]; simpl.
        -- specialize (Huseq u Hu). lia.
        -- lia.
      * intros p Hp. apply has_user_snoc. now apply Hpown.
      * intros v Hv. apply has_user_snoc. now apply Hvu.
  - (* INSERT INTO posts *)
    split_write_check; simpl in *; [now constructor|]. rename E into Enul.
    split_write_check; simpl in *; [now constructor|]. rename E into Eseq.
    split_write_check; simpl in *.
    + constructor; simpl; auto. intros p Hp. specialize (Hpseq p Hp). lia.
    + apply orb_false_iff in E. destruct E as [Eid Eown].
      apply negb_false_iff in Eown.
      constructor; unfold has_user, has_post; simpl; auto.
      * rewrite map_app. apply NoDup_snoc; [assumption|]. simpl.
        intros Hin. apply in_map_iff in Hin. destruct Hin as (p & Hid & Hp).
        specialize (Hpseq p Hp). lia.
      * intros p Hp. apply in_app_iff in Hp. destruct Hp as [Hp|[<-|[]]]; simpl.
        -- specialize (Hpseq p Hp). lia.
        -- lia.
      * intros p Hp. apply in_app_iff in Hp. destruct Hp as [Hp|[<-|[]]]; simpl.
        -- now apply Hpown.
        -- exact Eown.
      * intros v Hv. apply has_post_snoc. now apply Hvp.
  - (* INSERT INTO votes *)
    split_write_check; simpl in *.
    + now constructor.
    + apply orb_false_iff in E. destruct E as [E Ep].
      apply orb_false_iff in E. destruct E as [_ Eu].
      apply negb_false_iff in Eu, Ep.
      constructor; unfold has_user, has_post; simpl; auto.
      * intros v Hv. apply in_app_iff in Hv. destruct Hv as [Hv|[<-|[]]]; auto.
      * intros v Hv. apply in_app_iff in Hv. destruct Hv as [Hv|[<-|[]]]; auto.
  - (* UPDATE posts *)
    split_write_check; simpl in *; [now constructor|]. clear E.
    assert (Hids : forall ps,
      map models.Post.id
          (map (fun p => if models.Post.id p =? id
                         then models.Post.mk (models.Post.id p) title content published
                                (models.Post.created_at p) (models.Post.owner_id p)
                         else p) ps)
      = map models.Post.id ps).
    { intros ps. rewrite map_map. apply map_ext. intros p.
      now destruct (models.Post.id p =? id). }
    constructor; unfold has_user, has_post; simpl; auto.
    + now rewrite Hids.
    + intros p Hp. apply in_map_iff in Hp. destruct Hp as (q & <- & Hq).
      specialize (Hpseq q Hq). now destruct (models.Post.id q =? id).
    + intros p Hp. apply in_map_iff in Hp. destruct Hp as (q & <- & Hq).
      specialize (Hpown q Hq). now destruct (models.Post.id q =? id).
    + intros v Hv. specialize (Hvp v Hv).
      rewrite existsb_exists in *. destruct Hvp as (q & Hq & E).
      eexists. split; [apply in_map; exact Hq|].
      now destruct (models.Post.id q =? id).
  - (* DELETE FROM posts *)
    constructor; unfold has_user, has_post; simpl; auto.
    + now apply NoDup_map_filter.
    + intros p Hp. apply filter_In in Hp. now apply Hpseq.
    + intros p Hp. apply filter_In in Hp. now apply Hpown.
    + intros v Hv. apply filter_In in Hv. now apply Hvu.
    + intros v Hv. apply filter_In in Hv. destruct Hv as [Hv Hkeep].
      apply negb_true_iff in Hkeep. rewrite existsb_false in Hkeep.
      specialize (Hvp v Hv).
      rewrite existsb_exists in *. destruct Hvp as (q & Hq & E).
      exists q. split; [|assumption].
      apply filter_In. split; [assumption|].
      destruct (models.Post.id q =? id) eqn:Eq; [|reflexivity].
      assert (Hgone : In q (filter (fun p => models.Post.id p =? id) (posts st)))
        by (apply filter_In; auto).
      specialize (Hkeep q Hgone). simpl in Hkeep. congruence.
  - (* DELETE FROM votes *)
    constructor; unfold has_user, has_post; simpl; auto.
    + intros v Hv. apply filter_In in Hv. now apply Hvu.
    + intros v Hv. apply filter_In in Hv. now apply Hvp.
Qed.

Lemma store_ok_empty : store_ok empty.
Proof.
  constructor; simpl; try constructor; intros ? [].
Qed.

Lemma reachable_ok {env : Env} (st : Store) : main.reachable st -> store_ok st.
Proof.
  induction 1 as [|now req st _ IH].
  - exact store_ok_empty.
  - exact (store_ok_write _ _ (serve_write now req st) IH).
Qed.

(** ** Votes are unique per user and post *)

Lemma insert_vote_duplicate (st : Store) (row : models.Vote.t) :
  In row (votes st) -> insert_vote row st = (inl IntegrityError, st).
Proof.
  intros Hin. unfold insert_vote.
  rewrite (vote_eta row) in Hin. apply has_vote_true in Hin.
  now rewrite Hin.
Qed.

(** C3.  In every reachable store there is at most one vote row per
    (user, post) pair; every request, whatever it is, keeps it so; the
    composite primary key rejects an INSERT of a pair that is present and
    leaves the table as it was, and the cast path of the vote route raises
    before it reaches that INSERT. *)
Theorem one_vote_per_user_and_post {env : Env} :
  (forall st, main.reachable st -> votes_unique st)
  /\ (forall now req st,
        votes_unique st -> votes_unique (snd (main.serve now req st)))
  /\ (forall st row,
        In row (votes st) -> insert_vote row st = (inl IntegrityError, st))
  /\ (forall st c post_id,
        In (models.Vote.mk (models.User.id c) post_id) (votes st) ->
        exists e, vote.vote (schemas.Vote.mk post_id 1) c st = (inl (Raise e), st)).
Proof.
  split; [|split; [|split]].
  - intros st Hr. apply votes_unique_NoDup. apply reachable_ok in Hr.
    exact (ok_vote_pk _ Hr).
  - intros now req st H. apply votes_unique_NoDup.
    apply (write_votes_NoDup _ _ (serve_write now req st)).
    now apply votes_unique_NoDup.
  - exact insert_vote_duplicate.
  - intros st c post_id Hin. apply has_vote_true in Hin.
    unfold vote.vote, bind, query. simpl. rewrite vote_post_lookup.
    destruct (has_post st post_id); [|eexists; reflexivity].
    rewrite vote_lookup, Hin. eexists; reflexivity.
Qed.

(** ** Tokens *)

Section Tokens.
Context {env : Env}.

Lemma decode_encode (now : Z) (c : jose.claims) :
  jwt.decode now (jwt.encode c oauth2.SECRET_KEY oauth2.ALGORITHM)
             oauth2.SECRET_KEY [oauth2.ALGORITHM]
  = match jose.claims_exp c with
    | Some d =>
        if jose.timegm d <? jose.timegm now then None
        else Some (jose.mkPayload (jose.claims_user_id c) (Some (jose.timegm d)))
    | None => Some (jose.mkPayload (jose.claims_user_id c) None)
    end.
Proof.
  unfold jwt.decode, jwt.encode. simpl.
  rewrite !String.eqb_refl. simpl.
  destruct (jose.claims_exp c); reflexivity.
Qed.

(** Verification of an issued token is decided by whole seconds. *)
Lemma verify_issued (s t0 t : Z) (exc : HTTPException) :
  oauth2.verify_access_token t
    (oauth2.create_access_token t0 (jose.mkClaims (Some s) None)) exc
  = if jose.timegm (t0 + oauth2.timedelta_minutes oauth2.ACCESS_TOKEN_EXPIRE_MINUTES)
         <? jose.timegm t
    then inl (Raise exc)
    else inr (schemas.TokenData.mk (Some s)).
Proof.
  unfold oauth2.verify_access_token, oauth2.create_access_token.
  rewrite decode_encode. simpl.
  now destruct (_ <? _).
Qed.

End Tokens.

(** C4, as stated, fails: a token issued 0.2 s after the epoch with a TTL
    of 30 minutes still verifies 1800.5 s after the epoch, which is after
    issuance plus TTL. *)
Lemma verify_after_expiry_instant :
  let t0 := 200000 in
  let t := 1800500000 in
  t0 + @oauth2.timedelta_minutes
         (@oauth2.ACCESS_TOKEN_EXPIRE_MINUTES example_env) < t
  /\ @oauth2.verify_access_token example_env t
       (@oauth2.create_access_token example_env t0 (jose.mkClaims (Some 7) None))
       (@oauth2.credentials_exception)
     = inr (schemas.TokenData.mk (Some 7)).
Proof. split; [reflexivity | vm_compute; reflexivity]. Qed.

(** C4, amended.  A token issued for [s] at [t0] verifies to [s] at every
    instant before [t0] plus the TTL (indeed up to the end of the second
    in which that instant falls), and is refused at every instant whose
    whole second is later, in particular from one second after [t0] plus
    the TTL on; text that is not a token and a token whose signature does
    not match are refused at any instant. *)
Theorem token_round_trip {env : Env} (s t0 t : Z) (exc : HTTPException) :
  let token := oauth2.create_access_token t0 (jose.mkClaims (Some s) None) in
  let expiry := t0 + oauth2.timedelta_minutes oauth2.ACCESS_TOKEN_EXPIRE_MINUTES in
  (t < expiry ->
   oauth2.verify_access_token t token exc = inr (schemas.TokenData.mk (Some s)))
  /\ (jose.timegm t <= jose.timegm expiry ->
      oauth2.verify_access_token t token exc = inr (schemas.TokenData.mk (Some s)))
  /\ (jose.timegm expiry < jose.timegm t ->
      oauth2.verify_access_token t token exc = inl (Raise exc))
  /\ (expiry + 1000000 <= t ->
      oauth2.verify_access_token t token exc = inl (Raise exc))
  /\ (forall raw,
        oauth2.verify_access_token t (jose.Malformed raw) exc = inl (Raise exc))
  /\ (forall alg body signature,
        signature <> jws_sign oauth2.SECRET_KEY alg body ->
        oauth2.verify_access_token t (jose.JWS alg body signature) exc
        = inl (Raise exc)).
Proof.
  intros token expiry. subst token.
  rewrite verify_issued. fold expiry. clearbody expiry. unfold jose.timegm.
  repeat split.
  - intros H. destruct (_ <? _) eqn:E; [|reflexivity].
    apply Z.ltb_lt in E. Z.to_euclidean_division_equations. lia.
  - intros H. destruct (_ <? _) eqn:E; [|reflexivity].
    apply Z.ltb_lt in E. lia.
  - intros H. apply Z.ltb_lt in H. now rewrite H.
  - intros H. destruct (_ <? _) eqn:E; [reflexivity|].
    apply Z.ltb_ge in E. Z.to_euclidean_division_equations. lia.
  - intros alg body signature Hsig.
    unfold oauth2.verify_access_token, jwt.decode.
    destruct (negb (existsb _ _)); [reflexivity|].
    destruct (String.eqb_spec signature (jws_sign oauth2.SECRET_KEY alg body));
      [contradiction | reflexivity].
Qed.

(** ** Identity resolution *)

(** C5.  Identity resolution answers with one and the same exception,
    401 with one detail and one header, when the token does not verify and
    when it verifies but names a user id that is not in the users table;
    the responses of any protected route in the two cases are equal. *)
Theorem unknown_user_indistinguishable {env : Env} {A : Type}
    (success : Z) (render : Store -> A -> option main.Body)
    (handler : models.User.t -> DB A)
    (now1 now2 : Z) (token1 token2 : jose.token) (st1 st2 : Store)
    (data : schemas.TokenData.t) :
  (forall d, oauth2.verify_access_token now1 token1 oauth2.credentials_exception
             <> inr d) ->
  oauth2.verify_access_token now2 token2 oauth2.credentials_exception = inr data ->
  (forall u, In u (users st2) -> Some (models.User.id u) <> schemas.TokenData.id data) ->
  let denied :=
    mkHTTPException HTTP_401_UNAUTHORIZED "Could not validate credentials"
                    [("WWW-Authenticate", "Bearer")] in
  oauth2.get_current_user now1 token1 st1 = (inl (Raise denied), st1)
  /\ oauth2.get_current_user now2 token2 st2 = (inl (Raise denied), st2)
  /\ fst (main.respond success render
            (bind (oauth2.get_current_user now1 token1) handler) st1)
     = fst (main.respond success render
              (bind (oauth2.get_current_user now2 token2) handler) st2).
Proof.
  intros Hbad Hgood Hnone denied.
  assert (E1 : oauth2.get_current_user now1 token1 st1 = (inl (Raise denied), st1)).
  { unfold oauth2.get_current_user.
    destruct (oauth2.verify_access_token now1 token1 _) as [e|d] eqn:V;
      [|now elim (Hbad d)].
    unfold oauth2.verify_access_token in V.
    destruct (jwt.decode _ _ _ _) as [payload|];
      [destruct (jose.user_id payload)|]; inversion V; reflexivity. }
  assert (E2 : oauth2.get_current_user now2 token2 st2 = (inl (Raise denied), st2)).
  { unfold oauth2.get_current_user. rewrite Hgood. unfold bind, query.
    destruct (first _) as [u|] eqn:F; [|reflexivity].
    apply first_filter_Some in F. destruct F as [Hu F].
    specialize (Hnone u Hu). destruct (schemas.TokenData.id data); [|discriminate].
    apply Z.eqb_eq in F. congruence. }
  repeat split; try assumption.
  unfold main.respond, bind. now rewrite E1, E2.
Qed.

(** ** The public user representation *)

Lemma first_filter_forget (f : models.User.t -> bool) (us : list models.User.t) :
  (forall u, f (forget_password u) = f u) ->
  first (filter f (map forget_password us))
  = option_map forget_password (first (filter f us)).
Proof.
  intros Hf. induction us as [|u us IH]; simpl; [reflexivity|].
  rewrite Hf. now destruct (f u).
Qed.

Lemma existsb_forget (f : models.User.t -> bool) (us : list models.User.t) :
  (forall u, f (forget_password u) = f u) ->
  existsb f (map forget_password us) = existsb f us.
Proof.
  intros Hf. induction us as [|u us IH]; simpl; [reflexivity|].
  now rewrite Hf, IH.
Qed.

Lemma from_attributes_forget (u : models.User.t) :
  schemas.UserOut.from_attributes (forget_password u)
  = schemas.UserOut.from_attributes u.
Proof. reflexivity. Qed.

(** C7.  The body of a register or get-user response is a [UserOut]: the
    id, e-mail and creation instant of the row, read without the password
    attribute.  Stores that differ only in stored digests answer the same
    get-user request identically, and the same register request
    identically. *)
Theorem password_digest_not_exposed {env : Env} (st1 st2 : Store) (now id : Z)
    (salt email password : string) :
  same_up_to_passwords st1 st2 ->
  fst (main.serve now (main.GetUser id) st1)
  = fst (main.serve now (main.GetUser id) st2)
  /\ fst (main.serve now
            (main.CreateUser salt (schemas.UserCreate.mk email password)) st1)
     = fst (main.serve now
              (main.CreateUser salt (schemas.UserCreate.mk email password)) st2)
  /\ (forall u st',
        user.get_user id st1 = (inr u, st') ->
        fst (main.serve now (main.GetUser id) st1)
        = main.mkHTTPResponse 200
            (main.JsonUserOut
               (schemas.UserOut.mk (models.User.id u) (models.User.email u)
                                   (models.User.created_at u))) [])
  /\ (forall u st',
        user.create_user now salt (schemas.UserCreate.mk email password) st1
        = (inr u, st') ->
        fst (main.serve now
               (main.CreateUser salt (schemas.UserCreate.mk email password)) st1)
        = main.mkHTTPResponse HTTP_201_CREATED
            (main.JsonUserOut
               (schemas.UserOut.mk (users_id_seq st1) email now)) []).
Proof.
  intros (Husers & _ & _ & Hseq & _).
  split; [|split; [|split]].
  - simpl. unfold main.respond, user.get_user, bind, query.
    assert (E : option_map forget_password
                  (first (filter (fun u => models.User.id u =? id) (users st1)))
                = option_map forget_password
                    (first (filter (fun u => models.User.id u =? id) (users st2)))).
    { rewrite <- !first_filter_forget by reflexivity. now rewrite Husers. }
    destruct (first (filter _ (users st1))) as [u1|];
      destruct (first (filter _ (users st2))) as [u2|];
      simpl in E; try discriminate; [|reflexivity].
    assert (F : forget_password u1 = forget_password u2) by congruence.
    simpl.
    rewrite <- (from_attributes_forget u1), <- (from_attributes_forget u2).
    now rewrite F.
  - simpl. unfold main.respond, user.create_user, bind. simpl.
    destruct (utils.hash salt password) as [e|hashed_password];
      [unfold raise; now destruct e|].
    unfold insert_user, ret. simpl.
    assert (Eid : has_user st1 (users_id_seq st1) = has_user st2 (users_id_seq st2)).
    { unfold has_user. rewrite Hseq.
      rewrite <- (existsb_forget _ (users st1)), <- (existsb_forget _ (users st2))
        by reflexivity.
      now rewrite Husers. }
    assert (Eem : has_email st1 email = has_email st2 email).
    { unfold has_email.
      rewrite <- (existsb_forget _ (users st1)), <- (existsb_forget _ (users st2))
        by reflexivity.
      now rewrite Husers. }
    rewrite Eid, Eem, Hseq.
    destruct (_ || _); [reflexivity|].
    destruct (_ <? _); [reflexivity|].
    now destruct (_ || _).
  - intros u st' H. simpl. unfold main.respond. now rewrite H.
  - intros u st' H. simpl. unfold main.respond. rewrite H. simpl.
    unfold user.create_user, bind in H. simpl in H.
    destruct (utils.hash salt password) as [e|hashed_password]; [discriminate|].
    unfold insert_user, ret in H. simpl in H.
    destruct (_ || _); [discriminate|].
    destruct (_ <? _); [discriminate|].
    destruct (_ || _); [discriminate|].
    now inversion H.
Qed.

(** ** LIKE and substrings *)

Lemma like_percent_unfold (p s : string) :
  like (String "%" p) s
  = like p s || match s with
                | EmptyString => false
                | String _ s' => like (String "%" p) s'
                end.
Proof. destruct s; reflexivity. Qed.

Lemma like_percent (p s : string) :
  like (String "%" p) s = true
  <-> exists before rest, s = (before ++ rest)%string /\ like p rest = true.
Proof.
  induction s as [|c s IH]; rewrite like_percent_unfold.
  - rewrite orb_false_r. split.
    + intros H. now exists EmptyString, EmptyString.
    + intros (b & r & E & H). destruct b; simpl in E; [|discriminate].
      now subst r.
  - rewrite orb_true_iff, IH. split.
    + intros [H|(b & r & E & H)].
      * now exists EmptyString, (String c s).
      * exists (String c b), r. simpl. now rewrite E.
    + intros (b & r & E & H). destruct b as [|d b]; simpl in E.
      * left. now subst r.
      * right. injection E as _ E. eauto.
Qed.

Lemma like_plain_char (c : ascii) (p s : string) :
  like_special c = false ->
  like (String c p) s
  = match s with
    | EmptyString => false
    | String e s' => Ascii.eqb c e && like p s'
    end.
Proof.
  unfold like_special. rewrite !orb_false_iff. intros [[H1 H2] H3].
  simpl. rewrite H1, H2, H3. reflexivity.
Qed.

Lemma like_plain_prefix (s q t : string) :
  plain s = true ->
  like (s ++ q) t = true
  <-> exists rest, t = (s ++ rest)%string /\ like q rest = true.
Proof.
  revert t. induction s as [|c s IH]; intros t Hs.
  - simpl. split; [eauto | now intros (r & -> & H)].
  - simpl in Hs. apply andb_true_iff in Hs. destruct Hs as [Hc Hs].
    apply negb_true_iff in Hc.
    change (String c s ++ q)%string with (String c (s ++ q)).
    rewrite (like_plain_char c _ t Hc).
    destruct t as [|e t].
    + split; [discriminate | intros (r & E & _); discriminate].
    + rewrite andb_true_iff, (IH t Hs). split.
      * intros [Hce (r & -> & H)]. apply Ascii.eqb_eq in Hce. subst e.
        exists r. split; [reflexivity | assumption].
      * intros (r & E & H). simpl in E. injection E as -> ->.
        split; [apply Ascii.eqb_refl | exists r; split; [reflexivity | assumption]].
Qed.

Lemma like_any (t : string) : like "%" t = true.
Proof.
  apply like_percent. exists t, EmptyString. split; [|reflexivity].
  induction t as [|c t IH]; simpl; [reflexivity | now rewrite <- IH].
Qed.

(** On a plain search string without NUL [contains] is the substring
    test. *)
Lemma contains_plain (column other : string) :
  plain other = true -> has_nul other = false ->
  contains column other = true <-> occurs_in other column.
Proof.
  intros Hp Hnul. unfold contains, occurs_in. rewrite Hnul. cbn [negb andb].
  change ("%" ++ other ++ "%")%string with (String "%" (other ++ "%")).
  rewrite like_percent. split.
  - intros (b & r & -> & H). apply (like_plain_prefix _ _ _ Hp) in H.
    destruct H as (a & -> & _). eauto.
  - intros (b & a & ->). exists b, (other ++ a)%string. split; [reflexivity|].
    apply (like_plain_prefix _ _ _ Hp). exists a. split; [reflexivity|].
    apply like_any.
Qed.

Lemma contains_no_nul (column other : string) :
  contains column other = true -> has_nul other = false.
Proof.
  unfold contains. intros H. apply andb_true_iff in H. destruct H as [H _].
  now apply negb_true_iff in H.
Qed.

Lemma contains_empty (column : string) : contains column EmptyString = true.
Proof.
  apply contains_plain; [reflexivity | reflexivity |].
  now exists EmptyString, column.
Qed.

(** ** The join, the grouping and the ordering of the post queries *)

Section PostQueries.
Local Open Scope list_scope.

Lemma group_add_fresh (r : models.Post.t * option models.Vote.t)
    (groups : list (models.Post.t * Z)) :
  fresh_in (models.Post.id (fst r)) groups ->
  group_add r groups = groups ++ [(fst r, counted r)].
Proof.
  induction groups as [|[p n] gs IH]; intros Hf; simpl; [reflexivity|].
  destruct (models.Post.id p =? models.Post.id (fst r)) eqn:E.
  - apply Z.eqb_eq in E. elim (Hf (p, n)); [now left | exact E].
  - rewrite IH; [reflexivity|]. intros g Hg. apply Hf. now right.
Qed.

Lemma group_add_last (r : models.Post.t * option models.Vote.t)
    (groups : list (models.Post.t * Z)) (p : models.Post.t) (n : Z) :
  fresh_in (models.Post.id p) groups ->
  models.Post.id (fst r) = models.Post.id p ->
  group_add r (groups ++ [(p, n)]) = groups ++ [(p, n + counted r)].
Proof.
  intros Hf Hr. induction groups as [|[q m] gs IH]; simpl.
  - now rewrite Hr, Z.eqb_refl.
  - destruct (models.Post.id q =? models.Post.id (fst r)) eqn:E.
    + apply Z.eqb_eq in E. elim (Hf (q, m)); [now left | simpl; congruence].
    + rewrite IH; [reflexivity|]. intros g Hg. apply Hf. now right.
Qed.

Lemma group_matched (p : models.Post.t) (m : list models.Vote.t)
    (groups : list (models.Post.t * Z)) (n : Z) :
  fresh_in (models.Post.id p) groups ->
  fold_left (fun gs r => group_add r gs) (map (fun v => (p, Some v)) m)
            (groups ++ [(p, n)])
  = groups ++ [(p, n + Z.of_nat (length m))].
Proof.
  intros Hf. revert n. induction m as [|v m IH]; intros n.
  - simpl. now rewrite Z.add_0_r.
  - cbn [map fold_left]. rewrite group_add_last by auto.
    rewrite IH. cbn [counted snd length]. do 3 f_equal. lia.
Qed.

Lemma group_rows_of (p : models.Post.t) (vs : list models.Vote.t)
    (groups : list (models.Post.t * Z)) :
  fresh_in (models.Post.id p) groups ->
  fold_left (fun gs r => group_add r gs) (rows_of p vs) groups
  = groups ++ [(p, Z.of_nat (length (filter (fun v => models.Vote.post_id v
                                                      =? models.Post.id p) vs)))].
Proof.
  intros Hf. unfold rows_of. destruct (filter _ vs) as [|v m].
  - simpl. now rewrite group_add_fresh.
  - cbn [map fold_left]. rewrite group_add_fresh by auto.
    rewrite group_matched by auto. cbn [counted snd fst length].
    do 3 f_equal. lia.
Qed.

Lemma filter_rows_of (criterion : models.Post.t -> bool) (p : models.Post.t)
    (vs : list models.Vote.t) :
  filter (fun r : models.Post.t * option models.Vote.t => criterion (fst r))
         (rows_of p vs)
  = if criterion p then rows_of p vs else [].
Proof.
  unfold rows_of. destruct (filter _ vs) as [|v m].
  - simpl. now destruct (criterion p).
  - generalize (v :: m). intros l. induction l as [|a l IH]; simpl.
    + now destruct (criterion p).
    + destruct (criterion p); simpl in *; [now rewrite IH | exact IH].
Qed.

Lemma group_by_id_acc (criterion : models.Post.t -> bool)
    (ps : list models.Post.t) (vs : list models.Vote.t)
    (groups : list (models.Post.t * Z)) :
  NoDup (map models.Post.id ps) ->
  (forall p, In p ps -> fresh_in (models.Post.id p) groups) ->
  fold_left (fun gs r => group_add r gs)
            (filter (fun r => criterion (fst r)) (outerjoin ps vs)) groups
  = groups
    ++ map (fun p => (p, Z.of_nat (length (filter (fun v => models.Vote.post_id v
                                                           =? models.Post.id p) vs))))
           (filter criterion ps).
Proof.
  revert groups. induction ps as [|p ps IH]; intros groups Hnd Hf.
  - simpl. now rewrite app_nil_r.
  - inversion Hnd as [|? ? Hnotin Hnd']; subst.
    unfold outerjoin. cbn [flat_map]. fold (outerjoin ps vs).
    rewrite filter_app, fold_left_app, filter_rows_of.
    cbn [filter]. destruct (criterion p).
    + rewrite group_rows_of by (apply Hf; now left).
      rewrite IH; [now rewrite <- app_assoc | assumption |].
      intros q Hq g Hg. apply in_app_iff in Hg. destruct Hg as [Hg|[<-|[]]].
      * apply (Hf q); [now right | assumption].
      * simpl. intros E. apply Hnotin. rewrite E. now apply in_map.
    + simpl. apply IH; [assumption|]. intros q Hq. apply Hf. now right.
Qed.

(** Under the primary key of posts, the grouped outer join is the list of
    selected posts, each with the number of votes that reference it. *)
Lemma posts_with_votes_spec (criterion : models.Post.t -> bool) (st : Store) :
  NoDup (map models.Post.id (posts st)) ->
  post.posts_with_votes criterion st
  = map (fun p => (p, vote_count st (models.Post.id p)))
        (filter criterion (posts st)).
Proof.
  intros Hnd. unfold post.posts_with_votes, group_by_id.
  rewrite group_by_id_acc; [reflexivity | assumption | intros p _ g []].
Qed.

End PostQueries.

Lemma order_insert_perm (r : models.Post.t * Z) (l : list (models.Post.t * Z)) :
  Permutation (r :: l) (order_insert r l).
Proof.
  induction l as [|x l IH]; simpl; [reflexivity|].
  destruct (_ <=? _); [reflexivity|].
  rewrite perm_swap. now constructor.
Qed.

Lemma order_by_id_perm (l : list (models.Post.t * Z)) :
  Permutation l (order_by_id l).
Proof.
  induction l as [|r l IH]; simpl; [constructor|].
  rewrite <- order_insert_perm. now constructor.
Qed.

Lemma order_insert_ascending (r : models.Post.t * Z) (l : list (models.Post.t * Z)) :
  ~ In (models.Post.id (fst r)) (map (fun x => models.Post.id (fst x)) l) ->
  ascending l -> ascending (order_insert r l).
Proof.
  unfold ascending. induction l as [|x l IH]; intros Hnotin Hs; simpl.
  - repeat constructor.
  - inversion Hs as [|? ? Hs' Hall]; subst.
    destruct (models.Post.id (fst r) <=? models.Post.id (fst x)) eqn:E.
    + apply Z.leb_le in E.
      assert (Hlt : models.Post.id (fst r) < models.Post.id (fst x)).
      { destruct (Z.eq_dec (models.Post.id (fst r)) (models.Post.id (fst x))) as [Heq|];
          [|lia]. elim Hnotin. left. now rewrite Heq. }
      constructor; [assumption|]. constructor; [assumption|].
      eapply Forall_impl; [|exact Hall]. simpl. intros a Ha. lia.
    + apply Z.leb_gt in E. constructor.
      * apply IH; [|assumption]. intros Hin. apply Hnotin. now right.
      * eapply Permutation_Forall; [apply order_insert_perm|].
        constructor; assumption.
Qed.

Lemma order_by_id_ascending (l : list (models.Post.t * Z)) :
  NoDup (map (fun x => models.Post.id (fst x)) l) -> ascending (order_by_id l).
Proof.
  induction l as [|r l IH]; intros Hnd; simpl.
  - constructor.
  - inversion Hnd as [|? ? Hnotin Hnd']; subst.
    apply order_insert_ascending; [|auto].
    intros Hin. apply Hnotin.
    eapply Permutation_in; [|exact Hin].
    apply Permutation_map. symmetry. apply order_by_id_perm.
Qed.

(** ** Listing posts *)

(** C6, as stated, fails.  LIKE wildcards in the search string are not
    taken literally: a search for an underscore, or for a percent sign,
    returns a post whose title has neither, and a backslash is dropped
    from the search.  And not every request gives a page: a negative
    [limit] or [skip], or one beyond bigint, is refused by the database,
    and a search string that holds the NUL character by the driver. *)
Lemma list_posts_counterexample :
  let c := models.User.mk 1 "a@example.com" "digest" 0 in
  let p := models.Post.mk 1 "abc" "cba" true 0 1 in
  let st := mkStore [c] [p] [] 2 2 in
  (~ occurs_in "_" (models.Post.title p)
   /\ post.get_posts c (Some 10) (Some 0) (Some "_") st = (inr [(p, 0)], st))
  /\ (~ occurs_in "%" (models.Post.title p)
      /\ post.get_posts c (Some 10) (Some 0) (Some "%") st = (inr [(p, 0)], st))
  /\ (~ occurs_in "\b" (models.Post.title p)
      /\ post.get_posts c (Some 10) (Some 0) (Some "\b") st = (inr [(p, 0)], st))
  /\ post.get_posts c (Some (-1)) (Some 0) (Some EmptyString) st = (inl DataError, st)
  /\ post.get_posts c (Some 10) (Some (-1)) (Some EmptyString) st = (inl DataError, st)
  /\ post.get_posts c (Some (2 ^ 63)) (Some 0) (Some EmptyString) st
     = (inl DataError, st)
  /\ post.get_posts c (Some 10) (Some 0) (Some (String "000" EmptyString)) st
     = (inl ValueError, st).
Proof.
  assert (H : forall s : string,
            s = "_" \/ s = "%" \/ s = "\b" -> ~ occurs_in s "abc").
  { intros s Hs (b & a & E).
    destruct b as [|x1 [|x2 [|x3 [|x4 b]]]];
      destruct Hs as [-> | [-> | ->]]; simpl in E; try discriminate;
      injection E; intros; subst; discriminate. }
  repeat split; apply H; auto.
Qed.

Lemma limit_offset_ok {A : Type} (limit skip : Z) (rows : list A) :
  0 <= limit < 2 ^ 63 -> 0 <= skip < 2 ^ 63 ->
  limit_offset limit skip rows
  = inr (firstn (Z.to_nat limit) (skipn (Z.to_nat skip) rows)).
Proof.
  intros Hl Hs. unfold limit_offset, bigint_count.
  replace (0 <=? limit) with true by (symmetry; apply Z.leb_le; lia).
  replace (limit <? 2 ^ 63) with true by (symmetry; apply Z.ltb_lt; lia).
  replace (0 <=? skip) with true by (symmetry; apply Z.leb_le; lia).
  replace (skip <? 2 ^ 63) with true by (symmetry; apply Z.ltb_lt; lia).
  reflexivity.
Qed.

(** C6, amended.  On a store whose post ids are distinct, for [limit] and
    [skip] in the range [0 .. 2^63 - 1] and a search string without the
    LIKE characters percent, underscore and backslash and without the NUL
    character, list-posts returns
    [skip] rows dropped and then at most [limit] rows kept of the list
    [all], where [all] is in ascending order of post id and holds exactly
    the pairs (post, count) of the posts whose title has the search string
    as a substring, the count being the number of vote rows that reference
    the post (0 when there is none).  The parameters default to 10, 0 and
    the empty string, which is a substring of every title. *)
Theorem list_posts_page (st : Store) (c : models.User.t) (limit skip : Z)
    (search : string) :
  NoDup (map models.Post.id (posts st)) ->
  0 <= limit < 2 ^ 63 ->
  0 <= skip < 2 ^ 63 ->
  plain search = true ->
  has_nul search = false ->
  (exists all,
     post.get_posts c (Some limit) (Some skip) (Some search) st
     = (inr (firstn (Z.to_nat limit) (skipn (Z.to_nat skip) all)), st)
     /\ ascending all
     /\ (forall p n,
           In (p, n) all
           <-> In p (posts st)
               /\ occurs_in search (models.Post.title p)
               /\ n = vote_count st (models.Post.id p)))
  /\ post.get_posts c None None None st
     = post.get_posts c (Some 10) (Some 0) (Some EmptyString) st
  /\ (forall title, occurs_in EmptyString title).
Proof.
  intros Hpk Hl Hs Hplain Hnul. split; [|split].
  - exists (order_by_id
              (map (fun p => (p, vote_count st (models.Post.id p)))
                   (filter (fun p => contains (models.Post.title p) search) (posts st)))).
    split; [|split].
    + unfold post.get_posts. rewrite Hnul, posts_with_votes_spec by assumption.
      now rewrite limit_offset_ok.
    + apply order_by_id_ascending. rewrite map_map. simpl.
      now apply NoDup_map_filter.
    + intros p n. split.
      * intros Hin. apply (Permutation_in _ (Permutation_sym (order_by_id_perm _))) in Hin.
        apply in_map_iff in Hin. destruct Hin as (q & E & Hq).
        injection E as -> <-. apply filter_In in Hq. destruct Hq as [Hq Hc].
        apply (contains_plain _ _ Hplain Hnul) in Hc. auto.
      * intros (Hp & Hocc & ->).
        apply (Permutation_in _ (order_by_id_perm _)).
        apply in_map_iff. exists p. split; [reflexivity|].
        apply filter_In. split; [assumption|].
        now apply (contains_plain _ _ Hplain Hnul).
  - reflexivity.
  - intros title. now exists EmptyString, title.
Qed.

(** ** A new post has no votes *)

Lemma filter_nil {A : Type} (f : A -> bool) (l : list A) :
  (forall x, In x l -> f x = false) -> filter f l = [].
Proof.
  induction l as [|a l IH]; intros H; simpl; [reflexivity|].
  rewrite (H a (or_introl eq_refl)). apply IH. intros x Hx. apply H. now right.
Qed.

Lemma has_post_seq (st : Store) :
  store_ok st -> has_post st (posts_id_seq st) = false.
Proof.
  intros H. unfold has_post. apply existsb_false. intros p Hp.
  apply Z.eqb_neq. pose proof (ok_post_seq _ H p Hp). lia.
Qed.

Lemma no_vote_on_next_id (st : Store) (v : models.Vote.t) :
  store_ok st -> In v (votes st) -> (models.Vote.post_id v =? posts_id_seq st) = false.
Proof.
  intros H Hv. apply Z.eqb_neq.
  pose proof (ok_vote_post _ H v Hv) as Hp. apply has_post_true in Hp.
  destruct Hp as (q & Hq & E). pose proof (ok_post_seq _ H q Hq). lia.
Qed.

Lemma create_post_insert (now : Z) (body : schemas.PostCreate.t)
    (c : models.User.t) (st : Store) :
  post.create_post now body c st
  = insert_post now (models.User.id c) (schemas.PostCreate.title body)
      (schemas.PostCreate.content body) (schemas.PostCreate.published body) st.
Proof.
  unfold post.create_post, bind, ret.
  now destruct (insert_post _ _ _ _ _ st) as [[e|p] st'].
Qed.

(** The create handler on a store that satisfies the schema constraints,
    for a caller who is a row of it: the driver's check of the two
    strings, the range of the id column, then the new row. *)
Lemma create_post_eval (now : Z) (body : schemas.PostCreate.t)
    (c : models.User.t) (st : Store) :
  store_ok st -> In c (users st) ->
  post.create_post now body c st
  = if has_nul (schemas.PostCreate.title body)
       || has_nul (schemas.PostCreate.content body)
    then (inl ValueError, st)
    else if INT4_MAX <? posts_id_seq st then (inl DataError, st)
    else
      let p := models.Post.mk (posts_id_seq st) (schemas.PostCreate.title body)
                 (schemas.PostCreate.content body) (schemas.PostCreate.published body)
                 now (models.User.id c) in
      (inr p, mkStore (users st) (posts st ++ [p]) (votes st)
                      (users_id_seq st) (posts_id_seq st + 1)).
Proof.
  intros Hok Hc.
  assert (Hu : has_user st (models.User.id c) = true)
    by (apply has_user_true; eauto).
  unfold post.create_post, bind, insert_post, ret. simpl.
  destruct (_ || _); [reflexivity|].
  destruct (_ <? _); [reflexivity|].
  now rewrite (has_post_seq _ Hok), Hu.
Qed.

(** C8.  On a store that satisfies the schema constraints and for an
    authenticated caller: whenever create returns a post, it is the new
    row, and get on its id, right after, succeeds and returns that row
    with a vote count of 0; and create does return a post when title and
    content hold no NUL character and the id sequence is not exhausted. *)
Theorem get_after_create {env : Env} (now : Z) (token : jose.token)
    (st : Store) (c : models.User.t) (body : schemas.PostCreate.t) :
  store_ok st ->
  oauth2.get_current_user now token st = (inr c, st) ->
  (forall p st',
     post.create_post now body c st = (inr p, st') ->
     p = models.Post.mk (posts_id_seq st) (schemas.PostCreate.title body)
           (schemas.PostCreate.content body) (schemas.PostCreate.published body)
           now (models.User.id c)
     /\ post.get_post (models.Post.id p) c st' = (inr (p, 0), st'))
  /\ (has_nul (schemas.PostCreate.title body) = false ->
      has_nul (schemas.PostCreate.content body) = false ->
      posts_id_seq st <= INT4_MAX ->
      exists p st', post.create_post now body c st = (inr p, st')).
Proof.
  intros Hok Hauth. apply get_current_user_inv in Hauth. destruct Hauth as [_ Hc].
  pose proof (store_ok_write _ _
                (write_insert_post st now (models.User.id c)
                   (schemas.PostCreate.title body) (schemas.PostCreate.content body)
                   (schemas.PostCreate.published body)) Hok) as Hok'.
  rewrite <- create_post_insert, (create_post_eval now body c st Hok Hc) in Hok'.
  rewrite (create_post_eval now body c st Hok Hc).
  split.
  - intros p st' H.
    destruct (_ || _); [discriminate|].
    destruct (_ <? _); [discriminate|].
    cbv zeta in *. cbn [snd] in Hok'. injection H as <- <-.
    split; [reflexivity|].
    unfold post.get_post, bind, query. simpl.
    rewrite posts_with_votes_spec by exact (ok_post_pk _ Hok'). simpl.
    rewrite filter_app. simpl. rewrite Z.eqb_refl.
    rewrite (filter_nil _ (posts st)).
    + simpl. unfold vote_count. simpl.
      rewrite (filter_nil _ (votes st)); [reflexivity|].
      intros v Hv. now apply no_vote_on_next_id.
    + intros q Hq. apply Z.eqb_neq. pose proof (ok_post_seq _ Hok q Hq). lia.
  - intros Ht Hcn Hseq. rewrite Ht, Hcn. cbn [orb].
    replace (INT4_MAX <? posts_id_seq st) with false
      by (symmetry; apply Z.ltb_ge; lia).
    eauto.
Qed.

(** ** What an update leaves alone *)

Lemma post_pk_eq (ps : list models.Post.t) (p q : models.Post.t) :
  NoDup (map models.Post.id ps) -> In p ps -> In q ps ->
  models.Post.id p = models.Post.id q -> p = q.
Proof.
  intros Hpk Hp Hq E.
  pose proof (first_filter_pk _ _ Hpk Hp) as Fp.
  pose proof (first_filter_pk _ _ Hpk Hq) as Fq.
  rewrite E in Fp. congruence.
Qed.

(** A write never moves the posts sequence back, and a row whose id was
    already drawn comes from a row of the same id, owner and creation
    instant. *)
Lemma write_keeps_owner (st st' : Store) :
  write st st' ->
  posts_id_seq st <= posts_id_seq st'
  /\ forall p', In p' (posts st') -> models.Post.id p' < posts_id_seq st ->
       exists p, In p (posts st)
                 /\ models.Post.id p = models.Post.id p'
                 /\ models.Post.owner_id p = models.Post.owner_id p'
                 /\ models.Post.created_at p = models.Post.created_at p'.
Proof.
  intros W.
  destruct W;
    unfold insert_user, insert_post, insert_vote, update_posts, delete_posts,
           delete_votes in *;
    simpl.
  - split; [lia | eauto].
  - repeat split_write_check; simpl; (split; [lia | eauto]).
  - repeat split_write_check; simpl; (split; [lia|]); eauto.
    intros p' Hp' Hid. apply in_app_iff in Hp'. destruct Hp' as [Hp'|[<-|[]]].
    + eauto.
    + simpl in Hid. lia.
  - split_write_check; simpl; (split; [lia | eauto]).
  - split_write_check; simpl; (split; [lia|]); [eauto|].
    intros p' Hp' _. apply in_map_iff in Hp'.
    destruct Hp' as (q & <- & Hq). exists q.
    now destruct (models.Post.id q =? id).
  - split; [lia|]. intros p' Hp' _. apply filter_In in Hp'. destruct Hp'. eauto.
  - split; [lia | eauto].
Qed.

Lemma serves_keeps_owner {env : Env} (st st' : Store) :
  main.serves st st' ->
  posts_id_seq st <= posts_id_seq st'
  /\ forall p', In p' (posts st') -> models.Post.id p' < posts_id_seq st ->
       exists p, In p (posts st)
                 /\ models.Post.id p = models.Post.id p'
                 /\ models.Post.owner_id p = models.Post.owner_id p'
                 /\ models.Post.created_at p = models.Post.created_at p'.
Proof.
  induction 1 as [|now req st1 _ [IHseq IH]].
  - split; [lia | eauto].
  - destruct (write_keeps_owner _ _ (serve_write now req st1)) as [Wseq W].
    split; [lia|]. intros p2 Hp2 Hid.
    destruct (W p2 Hp2 ltac:(lia)) as (p1 & Hp1 & E1 & O1 & C1).
    destruct (IH p1 Hp1 ltac:(lia)) as (p & Hp & E & O & C).
    exists p. repeat split; congruence.
Qed.

(** C9.  A successful update rewrites title, content and published of the
    rows with the given id and nothing else: ids, owners and creation
    instants of all posts, the other posts, the users, the votes and the
    sequences are as before.  Along any sequence of requests from a store
    that satisfies the schema constraints, a post keeps its owner (and its
    creation instant) for as long as it exists. *)
Theorem update_frame {env : Env} :
  (forall st st' c id payload r,
     post.update_post id payload c st = (inr r, st') ->
     users st' = users st
     /\ votes st' = votes st
     /\ users_id_seq st' = users_id_seq st
     /\ posts_id_seq st' = posts_id_seq st
     /\ posts st'
        = map (fun q =>
                 if models.Post.id q =? id
                 then models.Post.mk (models.Post.id q)
                        (schemas.PostCreate.title payload)
                        (schemas.PostCreate.content payload)
                        (schemas.PostCreate.published payload)
                        (models.Post.created_at q) (models.Post.owner_id q)
                 else q) (posts st))
  /\ (forall st st' p p',
        store_ok st -> main.serves st st' ->
        In p (posts st) -> In p' (posts st') ->
        models.Post.id p' = models.Post.id p ->
        models.Post.owner_id p' = models.Post.owner_id p
        /\ models.Post.created_at p' = models.Post.created_at p).
Proof.
  split.
  - intros st st' c id payload r H.
    unfold post.update_post, bind, query in H.
    destruct (first _) as [p|]; [|discriminate].
    destruct (negb _); [discriminate|].
    unfold update_posts in H. simpl in H.
    destruct (_ || _); [discriminate|].
    injection H as _ <-. simpl. repeat split; reflexivity.
  - intros st st' p p' Hok Hs Hp Hp' E.
    destruct (serves_keeps_owner _ _ Hs) as [_ K].
    pose proof (ok_post_seq _ Hok p Hp) as Hseq.
    destruct (K p' Hp' ltac:(lia)) as (q & Hq & Eq & Oq & Cq).
    assert (q = p) by (apply (post_pk_eq _ _ _ (ok_post_pk _ Hok) Hq Hp); congruence).
    subst q. split; congruence.
Qed.

(** ** The published flag and reads *)

Section Published.
Variable f : models.Post.t -> bool.

Let flag (row : models.Post.t * Z) : models.Post.t * Z :=
  (set_published f (fst row), snd row).

Lemma order_insert_flag (r : models.Post.t * Z) (l : list (models.Post.t * Z)) :
  order_insert (flag r) (map flag l) = map flag (order_insert r l).
Proof.
  induction l as [|x l IH]; simpl; [reflexivity|].
  destruct (_ <=? _); simpl; [reflexivity | now rewrite IH].
Qed.

Lemma order_by_id_flag (l : list (models.Post.t * Z)) :
  order_by_id (map flag l) = map flag (order_by_id l).
Proof.
  induction l as [|r l IH]; simpl; [reflexivity|].
  now rewrite IH, order_insert_flag.
Qed.

Lemma filter_set_published (criterion : models.Post.t -> bool)
    (ps : list models.Post.t) :
  (forall p, criterion (set_published f p) = criterion p) ->
  filter criterion (map (set_published f) ps)
  = map (set_published f) (filter criterion ps).
Proof.
  intros H. induction ps as [|p ps IH]; simpl; [reflexivity|].
  rewrite H. destruct (criterion p); simpl; now rewrite IH.
Qed.

Lemma posts_with_votes_republish (criterion : models.Post.t -> bool) (st : Store) :
  NoDup (map models.Post.id (posts st)) ->
  (forall p, criterion (set_published f p) = criterion p) ->
  post.posts_with_votes criterion (republish f st)
  = map flag (post.posts_with_votes criterion st).
Proof.
  intros Hpk Hc.
  rewrite !posts_with_votes_spec.
  - simpl. rewrite filter_set_published by assumption.
    rewrite !map_map. reflexivity.
  - assumption.
  - simpl. rewrite map_map. simpl. assumption.
Qed.

Lemma limit_offset_map {A B : Type} (g : A -> B) (limit skip : Z) (rows : list A) :
  limit_offset limit skip (map g rows)
  = match limit_offset limit skip rows with
    | inl e => inl e
    | inr page => inr (map g page)
    end.
Proof.
  unfold limit_offset. destruct (_ && _); [|reflexivity].
  now rewrite skipn_map, firstn_map.
Qed.

(** C10.  Reads do not look at the published flag.  Setting the flags of
    a store in any way changes the answers of list-posts and get-post only
    in the flags shown: the same posts, in the same order, with the same
    counts.  In particular an unpublished post is returned by get-post,
    and is in the list whenever its title passes the search filter and
    the page is long enough to hold all posts. *)
Theorem published_flag_ignored (st : Store) (c : models.User.t)
    (limit skip : option Z) (search : option string) (id : Z) :
  NoDup (map models.Post.id (posts st)) ->
  fst (post.get_posts c limit skip search (republish f st))
  = match fst (post.get_posts c limit skip search st) with
    | inl e => inl e
    | inr rows => inr (map flag rows)
    end
  /\ fst (post.get_post id c (republish f st))
     = match fst (post.get_post id c st) with
       | inl e => inl e
       | inr row => inr (flag row)
       end
  /\ (forall p, In p (posts st) -> models.Post.published p = false ->
        post.get_post (models.Post.id p) c st
        = (inr (p, vote_count st (models.Post.id p)), st)
        /\ forall (n : Z) (pattern : string),
             Z.of_nat (length (posts st)) <= n < 2 ^ 63 ->
             contains (models.Post.title p) pattern = true ->
             exists rows,
               post.get_posts c (Some n) None (Some pattern) st = (inr rows, st)
               /\ In (p, vote_count st (models.Post.id p)) rows).
Proof.
  intros Hpk. split; [|split].
  - unfold post.get_posts. destruct (has_nul _); [reflexivity|]. cbn [fst].
    rewrite posts_with_votes_republish by (assumption || reflexivity).
    rewrite order_by_id_flag. apply limit_offset_map.
  - unfold post.get_post, bind, query. cbn [fst].
    rewrite posts_with_votes_republish by (assumption || reflexivity).
    destruct (post.posts_with_votes _ st); reflexivity.
  - intros p Hp _. split.
    + unfold post.get_post, bind, query.
      rewrite posts_with_votes_spec by assumption.
      pose proof (first_filter_pk _ _ Hpk Hp) as F.
      destruct (filter _ (posts st)) as [|q l]; [discriminate|].
      simpl in F. injection F as ->. reflexivity.
    + intros n pattern Hn Hmatch.
      unfold post.get_posts.
      rewrite (contains_no_nul _ _ Hmatch).
      rewrite posts_with_votes_spec by assumption.
      rewrite limit_offset_ok by lia.
      eexists. split; [reflexivity|].
      cbn [Z.to_nat skipn].
      rewrite firstn_all2.
      * apply (Permutation_in _ (order_by_id_perm _)).
        apply in_map_iff. exists p. split; [reflexivity|].
        apply filter_In. auto.
      * rewrite <- (Permutation_length (order_by_id_perm _)).
        rewrite length_map.
        pose proof (filter_length_le
                      (fun q => contains (models.Post.title q) pattern) (posts st)).
        lia.
Qed.

End Published.

(** * Instances

    Each statement above that rests on assumptions is applied once to the
    example deployment, with its assumptions checked there. *)

Lemma example_store_reachable : @main.reachable example_env example_store.
Proof.
  exact (@main.reachable_serve example_env 5
           (main.CreatePost example_token (schemas.PostCreate.mk "abc" "cba" false)) _
           (@main.reachable_serve example_env 0
              (main.CreateUser "salt" (schemas.UserCreate.mk "ann@example.com" "secret"))
              _ (@main.reachable_empty example_env))).
Qed.

Lemma example_store_ok : store_ok example_store.
Proof. exact (@reachable_ok example_env _ example_store_reachable). Qed.

Lemma example_post_pk : NoDup (map models.Post.id (posts example_store)).
Proof. repeat constructor. intros []. Qed.

Lemma vote_cast_or_retract_witness :
  @oauth2.get_current_user example_env 0 example_token example_store
  = (inr example_user, example_store)
  /\ (1 = 0 \/ 1 = 1)
  /\ vote.vote (schemas.Vote.mk 1 1) example_user example_store
     = (inr "successfully added vote",
        mkStore [example_user] [example_post] [models.Vote.mk 1 1] 2 2).
Proof.
  split; [reflexivity|]. split; [right; reflexivity|].
  pose proof (@vote_cast_or_retract example_env 0 example_token example_store
                example_user 1 1 eq_refl (or_intror eq_refl)) as H.
  cbv zeta in H. destruct H as [_ H].
  destruct H as (_ & H & _).
  - exists example_post. split; [left; reflexivity | reflexivity].
  - apply H; [reflexivity | intros []].
Defined.

Lemma update_delete_guarded_witness :
  let payload := schemas.PostCreate.mk "new title" "new content" true in
  NoDup (map models.Post.id (posts example_store))
  /\ post.delete_post 1 (models.User.mk 2 "bob@example.com" "digest" 9) example_store
     = (inl (Raise (mkHTTPException HTTP_403_FORBIDDEN
                      "You are not the owner of the post" [])), example_store)
  /\ has_nul (schemas.PostCreate.title payload) = false
  /\ has_nul (schemas.PostCreate.content payload) = false
  /\ post.update_post 1 payload example_user example_store
     = (inr (Some (models.Post.mk 1 "new title" "new content" true 5 1)),
        mkStore [example_user]
                [models.Post.mk 1 "new title" "new content" true 5 1] [] 2 2).
Proof.
  split; [exact example_post_pk|].
  split.
  - pose proof (update_delete_guarded example_store
                  (models.User.mk 2 "bob@example.com" "digest" 9) 1
                  (schemas.PostCreate.mk "new title" "new content" true)
                  example_post_pk) as H.
    cbv zeta in H. destruct H as (_ & H & _).
    apply (H example_post); [left; reflexivity | reflexivity | discriminate].
  - split; [reflexivity|]. split; [reflexivity|].
    pose proof (update_delete_guarded example_store example_user 1
                  (schemas.PostCreate.mk "new title" "new content" true)
                  example_post_pk) as H.
    cbv zeta in H. destruct H as (_ & _ & H).
    exact (proj1 (H example_post (or_introl eq_refl) eq_refl eq_refl)
             eq_refl eq_refl).
Defined.

Lemma one_vote_per_user_and_post_witness :
  let voted := mkStore [example_user] [example_post] [models.Vote.mk 1 1] 2 2 in
  @main.reachable example_env voted
  /\ In (models.Vote.mk (models.User.id example_user) 1) (votes voted)
  /\ votes_unique voted
  /\ votes_unique
       (snd (@main.serve example_env 7
               (main.Vote example_token (schemas.Vote.mk 1 1)) voted))
  /\ insert_vote (models.Vote.mk 1 1) voted = (inl IntegrityError, voted)
  /\ exists e,
       vote.vote (schemas.Vote.mk 1 1) example_user voted = (inl (Raise e), voted).
Proof.
  assert (Hreach : @main.reachable example_env
                     (mkStore [example_user] [example_post] [models.Vote.mk 1 1] 2 2)).
  { exact (@main.reachable_serve example_env 6
             (main.Vote example_token (schemas.Vote.mk 1 1)) _
             example_store_reachable). }
  destruct (@one_vote_per_user_and_post example_env)
    as (Hunique & Hkeeps & Hkey & Hcheck).
  split; [exact Hreach|]. split; [left; reflexivity|].
  split; [exact (Hunique _ Hreach)|].
  split; [exact (Hkeeps 7 _ _ (Hunique _ Hreach))|].
  split.
  - apply Hkey. left. reflexivity.
  - apply (Hcheck _ example_user 1). left. reflexivity.
Defined.

Lemma token_round_trip_witness :
  1799999999 < 0 + @oauth2.timedelta_minutes (@oauth2.ACCESS_TOKEN_EXPIRE_MINUTES example_env)
  /\ 1800000000 + 1000000 <= 1801000000
  /\ @oauth2.verify_access_token example_env 1799999999 example_token
       oauth2.credentials_exception
     = inr (schemas.TokenData.mk (Some 1))
  /\ @oauth2.verify_access_token example_env 1801000000 example_token
       oauth2.credentials_exception
     = inl (Raise oauth2.credentials_exception).
Proof.
  split; [reflexivity|]. split; [discriminate|].
  split.
  - exact (proj1 (@token_round_trip example_env 1 0 1799999999
                    oauth2.credentials_exception) eq_refl).
  - refine (proj1 (proj2 (proj2 (proj2
              (@token_round_trip example_env 1 0 1801000000
                 oauth2.credentials_exception)))) _).
    discriminate.
Defined.

Lemma unknown_user_indistinguishable_witness :
  (forall d, @oauth2.verify_access_token example_env 0 (jose.Malformed "garbage")
               oauth2.credentials_exception <> inr d)
  /\ @oauth2.verify_access_token example_env 0 example_token
       oauth2.credentials_exception = inr (schemas.TokenData.mk (Some 1))
  /\ (forall u, In u (users empty) -> Some (models.User.id u) <> Some 1)
  /\ fst (@main.serve example_env 0 (main.GetPost (jose.Malformed "garbage") 1)
            example_store)
     = fst (@main.serve example_env 0 (main.GetPost example_token 1) empty).
Proof.
  split; [intros d; discriminate|]. split; [reflexivity|]. split; [intros u []|].
  refine (proj2 (proj2
    (@unknown_user_indistinguishable example_env _ 200
       (fun st row => option_map main.JsonPostOut (main.render_PostOut st row))
       (post.get_post 1)
       0 0 (jose.Malformed "garbage") example_token example_store empty
       (schemas.TokenData.mk (Some 1)) _ eq_refl _)));
    [intros d; discriminate | intros u []].
Defined.

Lemma list_posts_page_witness :
  NoDup (map models.Post.id (posts example_store))
  /\ 0 <= 10 < 2 ^ 63
  /\ 0 <= 0 < 2 ^ 63
  /\ plain "b" = true
  /\ has_nul "b" = false
  /\ exists all,
       post.get_posts example_user (Some 10) (Some 0) (Some "b") example_store
       = (inr (firstn 10 (skipn 0 all)), example_store)
       /\ ascending all
       /\ In (example_post, 0) all.
Proof.
  assert (Hlimit : 0 <= 10 < 2 ^ 63) by (split; [discriminate | reflexivity]).
  assert (Hskip : 0 <= 0 < 2 ^ 63) by (split; [discriminate | reflexivity]).
  split; [exact example_post_pk|].
  split; [exact Hlimit|]. split; [exact Hskip|]. split; [reflexivity|].
  split; [reflexivity|].
  destruct (list_posts_page example_store example_user 10 0 "b" example_post_pk
              Hlimit Hskip eq_refl eq_refl) as [(all & E & A & M) _].
  exists all. split; [exact E|]. split; [exact A|].
  apply M. split; [left; reflexivity|]. split; [|reflexivity].
  exists "a", "c". reflexivity.
Defined.

Lemma password_digest_not_exposed_witness :
  let other :=
    mkStore [models.User.mk 1 "ann@example.com" "$2b$pepper$hidden" 0]
            [example_post] [] 2 2 in
  let register :=
    main.CreateUser "salt" (schemas.UserCreate.mk "bob@example.com" "one") in
  same_up_to_passwords example_store other
  /\ fst (@main.serve example_env 9 (main.GetUser 1) example_store)
     = fst (@main.serve example_env 9 (main.GetUser 1) other)
  /\ fst (@main.serve example_env 9 register example_store)
     = fst (@main.serve example_env 9 register other)
  /\ fst (@main.serve example_env 9 (main.GetUser 1) example_store)
     = main.mkHTTPResponse 200
         (main.JsonUserOut (schemas.UserOut.mk 1 "ann@example.com" 0)) []
  /\ fst (@main.serve example_env 9 register example_store)
     = main.mkHTTPResponse HTTP_201_CREATED
         (main.JsonUserOut (schemas.UserOut.mk 2 "bob@example.com" 9)) [].
Proof.
  assert (Hsame : same_up_to_passwords example_store
                    (mkStore [models.User.mk 1 "ann@example.com" "$2b$pepper$hidden" 0]
                             [example_post] [] 2 2))
    by (repeat split; reflexivity).
  split; [exact Hsame|].
  pose proof (@password_digest_not_exposed example_env _ _ 9 1
                "salt" "bob@example.com" "one" Hsame) as H.
  destruct H as (Hget & Hregister & Hbody & Hcreated).
  split; [exact Hget|]. split; [exact Hregister|].
  split; [exact (Hbody example_user example_store eq_refl)|].
  exact (Hcreated _ _ eq_refl).
Defined.

Lemma get_after_create_witness :
  let body := schemas.PostCreate.mk "wer" "rew" false in
  store_ok example_store
  /\ @oauth2.get_current_user example_env 7 example_token example_store
     = (inr example_user, example_store)
  /\ has_nul (schemas.PostCreate.title body) = false
  /\ has_nul (schemas.PostCreate.content body) = false
  /\ posts_id_seq example_store <= INT4_MAX
  /\ exists p st',
       post.create_post 7 body example_user example_store = (inr p, st')
       /\ post.get_post 2 example_user st' = (inr (p, 0), st').
Proof.
  assert (Hseq : posts_id_seq example_store <= INT4_MAX) by discriminate.
  split; [exact example_store_ok|]. split; [reflexivity|].
  split; [reflexivity|]. split; [reflexivity|]. split; [exact Hseq|].
  destruct (@get_after_create example_env 7 example_token example_store example_user
              (schemas.PostCreate.mk "wer" "rew" false) example_store_ok eq_refl)
    as [Hget Hcreate].
  destruct (Hcreate eq_refl eq_refl Hseq) as (p & st' & Hc).
  exists p, st'. split; [exact Hc|].
  destruct (Hget p st' Hc) as [Hp Hg]. subst p. exact Hg.
Defined.

Lemma update_frame_witness :
  let payload := schemas.PostCreate.mk "new title" "new content" true in
  let updated := models.Post.mk 1 "new title" "new content" true 5 1 in
  let after := mkStore [example_user] [updated] [] 2 2 in
  post.update_post 1 payload example_user example_store = (inr (Some updated), after)
  /\ store_ok example_store
  /\ @main.serves example_env example_store after
  /\ In example_post (posts example_store)
  /\ In updated (posts after)
  /\ models.Post.id updated = models.Post.id example_post
  /\ votes after = votes example_store
  /\ models.Post.owner_id updated = models.Post.owner_id example_post.
Proof.
  assert (Hserves : @main.serves example_env example_store
                      (mkStore [example_user]
                         [models.Post.mk 1 "new title" "new content" true 5 1] [] 2 2)).
  { exact (@main.serves_more example_env example_store 6
             (main.UpdatePost example_token 1
                (schemas.PostCreate.mk "new title" "new content" true))
             example_store (@main.serves_none example_env example_store)). }
  split; [reflexivity|]. split; [exact example_store_ok|].
  split; [exact Hserves|]. split; [left; reflexivity|]. split; [left; reflexivity|].
  split; [reflexivity|].
  destruct (@update_frame example_env) as [Hframe Howner].
  split.
  - exact (proj1 (proj2 (Hframe example_store _ example_user 1
                           (schemas.PostCreate.mk "new title" "new content" true)
                           _ eq_refl))).
  - exact (proj1 (Howner example_store _ example_post _ example_store_ok Hserves
                    (or_introl eq_refl) (or_introl eq_refl) eq_refl)).
Defined.

Lemma published_flag_ignored_witness :
  NoDup (map models.Post.id (posts example_store))
  /\ models.Post.published example_post = false
  /\ post.get_post 1 example_user example_store = (inr (example_post, 0), example_store)
  /\ fst (post.get_posts example_user None None None
            (republish (fun _ => true) example_store))
     = match fst (post.get_posts example_user None None None example_store) with
       | inl e => inl e
       | inr rows =>
           inr (map (fun row => (set_published (fun _ => true) (fst row), snd row)) rows)
       end.
Proof.
  split; [exact example_post_pk|]. split; [reflexivity|].
  destruct (published_flag_ignored (fun _ => true) example_store example_user
              None None None 1 example_post_pk) as (Hlist & _ & Hget).
  split.
  - exact (proj1 (Hget example_post (or_introl eq_refl) eq_refl)).
  - exact Hlist.
Defined.

(** * Further properties of the routers *)

(** ** Lookups by a unique column *)

Lemma first_filter_key {A K : Type} (key : A -> K) (eqb : K -> K -> bool)
    (l : list A) (x : A) :
  (forall a b, eqb a b = true <-> a = b) ->
  NoDup (map key l) -> In x l ->
  first (filter (fun y => eqb (key y) (key x)) l) = Some x.
Proof.
  intros Heqb. induction l as [|a l IH]; simpl; [intros _ []|].
  intros Hnd [->|Hin].
  - now rewrite (proj2 (Heqb _ _) eq_refl).
  - inversion Hnd as [|? ? Hnotin Hnd']; subst.
    destruct (eqb (key a) (key x)) eqn:E.
    + apply Heqb in E. elim Hnotin. rewrite E. now apply in_map.
    + now apply IH.
Qed.

Lemma first_filter_user_id (st : Store) (u : models.User.t) :
  NoDup (map models.User.id (users st)) -> In u (users st) ->
  first (filter (fun y => models.User.id y =? models.User.id u) (users st)) = Some u.
Proof. apply (first_filter_key models.User.id Z.eqb). apply Z.eqb_eq. Qed.

Lemma first_filter_user_email (st : Store) (u : models.User.t) :
  NoDup (map models.User.email (users st)) -> In u (users st) ->
  first (filter (fun y => String.eqb (models.User.email y) (models.User.email u))
                (users st)) = Some u.
Proof. apply (first_filter_key models.User.email String.eqb). apply String.eqb_eq. Qed.

(** ** Login *)

(** The login handler, by the checks it makes in turn. *)
Lemma login_eval {env : Env} (now : Z) (username password : string) (st : Store) :
  auth.login now username password st
  = if has_nul username then (inl ValueError, st)
    else
      match first (filter (fun u => String.eqb (models.User.email u) username)
                          (users st)) with
      | None =>
          (inl (Raise (mkHTTPException HTTP_403_FORBIDDEN "Invalid credentials" [])), st)
      | Some u =>
          match utils.verify_password password (models.User.password u) with
          | inl e => (inl e, st)
          | inr false =>
              (inl (Raise (mkHTTPException HTTP_403_FORBIDDEN "Invalid credentials" [])),
               st)
          | inr true =>
              (inr (schemas.Token.mk
                      (oauth2.create_access_token now
                         (jose.mkClaims (Some (models.User.id u)) None))
                      "bearer"), st)
          end
      end.
Proof.
  unfold auth.login, bind, query, raise.
  destruct (has_nul username); [reflexivity|].
  destruct (first _) as [u|]; [|reflexivity].
  now destruct (utils.verify_password _ _) as [e|[|]].
Qed.

(** X1.  For a username without the NUL character, login answers 403
    "Invalid credentials", and leaves the store as it was, whenever every
    user row with the given e-mail has a digest that the password check
    compares and finds different (in particular when there is no such
    row): an unknown e-mail and a wrong password are not told apart. *)
Theorem login_rejects_alike {env : Env} (now : Z) (username password : string)
    (st : Store) :
  has_nul username = false ->
  (forall u, In u (users st) -> models.User.email u = username ->
             utils.verify_password password (models.User.password u) = inr false) ->
  auth.login now username password st
  = (inl (Raise (mkHTTPException HTTP_403_FORBIDDEN "Invalid credentials" [])), st).
Proof.
  intros Hnul H. rewrite login_eval, Hnul.
  destruct (first _) as [u|] eqn:F; [|reflexivity].
  apply first_filter_Some in F. destruct F as [Hu He].
  apply String.eqb_eq in He. now rewrite (H u Hu He).
Qed.

Lemma login_rejects_alike_witness :
  has_nul "ann@example.com" = false
  /\ has_nul "bob@example.com" = false
  /\ (forall u, In u (users example_store) ->
             models.User.email u = "ann@example.com" ->
             @utils.verify_password example_env "guess" (models.User.password u)
             = inr false)
  /\ (forall u, In u (users example_store) ->
                models.User.email u = "bob@example.com" ->
                @utils.verify_password example_env "secret" (models.User.password u)
                = inr false)
  /\ @auth.login example_env 3 "ann@example.com" "guess" example_store
     = (inl (Raise (mkHTTPException 403 "Invalid credentials" [])), example_store)
  /\ @auth.login example_env 3 "ann@example.com" "guess" example_store
     = @auth.login example_env 3 "bob@example.com" "secret" example_store.
Proof.
  assert (H1 : forall u, In u (users example_store) ->
             models.User.email u = "ann@example.com" ->
             @utils.verify_password example_env "guess" (models.User.password u)
             = inr false)
    by (intros u [<-|[]] _; reflexivity).
  assert (H2 : forall u, In u (users example_store) ->
             models.User.email u = "bob@example.com" ->
             @utils.verify_password example_env "secret" (models.User.password u)
             = inr false)
    by (intros u [<-|[]]; discriminate).
  split; [reflexivity|]. split; [reflexivity|].
  split; [exact H1|]. split; [exact H2|].
  split.
  - exact (@login_rejects_alike example_env 3 "ann@example.com" "guess" example_store
             eq_refl H1).
  - rewrite (@login_rejects_alike example_env 3 "ann@example.com" "guess"
               example_store eq_refl H1).
    rewrite (@login_rejects_alike example_env 3 "bob@example.com" "secret"
               example_store eq_refl H2).
    reflexivity.
Defined.

(** X2.  When the e-mails and ids of the users table are unique, a login
    with the e-mail of a row whose digest accepts the password returns a
    bearer token, writes nothing, and that token resolves to the very same
    row at every instant up to the end of the second in which the token
    expires.  (Were the e-mail of the row to hold the NUL character, which
    no text stored by PostgreSQL does, the driver would refuse it as a
    parameter and the login would raise instead.) *)
Theorem login_then_resolve {env : Env} (now later : Z) (password : string)
    (st : Store) (u : models.User.t) :
  NoDup (map models.User.email (users st)) ->
  NoDup (map models.User.id (users st)) ->
  In u (users st) ->
  utils.verify_password password (models.User.password u) = inr true ->
  jose.timegm later
  <= jose.timegm (now + oauth2.timedelta_minutes oauth2.ACCESS_TOKEN_EXPIRE_MINUTES) ->
  exists token,
    auth.login now (models.User.email u) password st
    = ((if has_nul (models.User.email u) then inl ValueError
        else inr (schemas.Token.mk token "bearer")), st)
    /\ oauth2.get_current_user later token st = (inr u, st).
Proof.
  intros Hemail Hid Hu Hpw Htime.
  exists (oauth2.create_access_token now (jose.mkClaims (Some (models.User.id u)) None)).
  split.
  - rewrite login_eval. destruct (has_nul _); [reflexivity|].
    rewrite (first_filter_user_email st u Hemail Hu). now rewrite Hpw.
  - unfold oauth2.get_current_user. rewrite verify_issued.
    apply Z.ltb_ge in Htime. rewrite Htime.
    unfold bind, query. simpl.
    now rewrite (first_filter_user_id st u Hid Hu).
Qed.

Lemma login_then_resolve_witness :
  NoDup (map models.User.email (users example_store))
  /\ NoDup (map models.User.id (users example_store))
  /\ In example_user (users example_store)
  /\ @utils.verify_password example_env "secret" (models.User.password example_user)
     = inr true
  /\ jose.timegm 1800000000
     <= jose.timegm (0 + @oauth2.timedelta_minutes
                           (@oauth2.ACCESS_TOKEN_EXPIRE_MINUTES example_env))
  /\ exists token,
       @auth.login example_env 0 "ann@example.com" "secret" example_store
       = (inr (schemas.Token.mk token "bearer"), example_store)
       /\ @oauth2.get_current_user example_env 1800000000 token example_store
          = (inr example_user, example_store).
Proof.
  assert (He : NoDup (map models.User.email (users example_store)))
    by (repeat constructor; intros []).
  assert (Hi : NoDup (map models.User.id (users example_store)))
    by (repeat constructor; intros []).
  assert (Ht : jose.timegm 1800000000
               <= jose.timegm (0 + @oauth2.timedelta_minutes
                                     (@oauth2.ACCESS_TOKEN_EXPIRE_MINUTES example_env)))
    by discriminate.
  split; [exact He|]. split; [exact Hi|]. split; [left; reflexivity|].
  split; [reflexivity|]. split; [exact Ht|].
  exact (@login_then_resolve example_env 0 1800000000 "secret" example_store
           example_user He Hi (or_introl eq_refl) eq_refl Ht).
Defined.

(** ** Registration and user lookup *)



(** The register handler: the password library's checks, then the
    INSERT. *)
Lemma create_user_eval {env : Env} (now : Z) (salt : string)
    (body : schemas.UserCreate.t) (st : Store) :
  user.create_user now salt body st
  = if utils.MAX_PASSWORD_SIZE
       <? Z.of_nat (String.length (schemas.UserCreate.password body))
    then (inl PasswordSizeError, st)
    else if has_nul (schemas.UserCreate.password body) then (inl ValueError, st)
    else insert_user now (schemas.UserCreate.email body)
           (bcrypt salt (schemas.UserCreate.password body)) st.
Proof.
  unfold user.create_user, utils.hash, bind, ret, raise.
  destruct (_ <? _); [reflexivity|].
  destruct (has_nul _); [reflexivity|].
  now destruct (insert_user _ _ _ st) as [[e|u] st'].
Qed.





(** X5.  When user ids are unique, get-user returns exactly the row that
    has the id, and answers 404 naming the id when no row has it; either
    way it writes nothing. *)
Theorem get_user_lookup (id : Z) (st : Store) :
  NoDup (map models.User.id (users st)) ->
  (forall u, In u (users st) -> models.User.id u = id ->
             user.get_user id st = (inr u, st))
  /\ ((forall u, In u (users st) -> models.User.id u <> id) ->
      user.get_user id st
      = (inl (Raise (mkHTTPException HTTP_404_NOT_FOUND
                       ("User with " ++ str id ++ " was not found") [])), st)).
Proof.
  intros Hpk. unfold user.get_user, bind, query. split.
  - intros u Hu <-. now rewrite (first_filter_user_id st u Hpk Hu).
  - intros Hnone.
    replace (first (filter _ (users st))) with (@None models.User.t); [reflexivity|].
    symmetry. apply first_filter_None. intros u Hu. apply Z.eqb_neq. auto.
Qed.

Lemma get_user_lookup_witness :
  NoDup (map models.User.id (users example_store))
  /\ user.get_user 1 example_store = (inr example_user, example_store)
  /\ user.get_user 890 example_store
     = (inl (Raise (mkHTTPException 404 "User with 890 was not found" [])),
        example_store).
Proof.
  assert (Hi : NoDup (map models.User.id (users example_store)))
    by (repeat constructor; intros []).
  split; [exact Hi|]. split.
  - exact (proj1 (get_user_lookup 1 example_store Hi)
             example_user (or_introl eq_refl) eq_refl).
  - apply (proj2 (get_user_lookup 890 example_store Hi)).
    intros u [<-|[]]; discriminate.
Defined.

(** ** Token verification and identity resolution *)

(** X6.  [verify_access_token] returns token data only for a token whose
    header names the configured algorithm, whose signature is the one the
    configured key gives for that header and payload, whose payload has a
    user id, which is the id returned, and whose expiry, if any, is not
    before the current whole second. *)
Theorem verify_accepts_only_signed {env : Env} (now : Z) (token : jose.token)
    (exc : HTTPException) (data : schemas.TokenData.t) :
  oauth2.verify_access_token now token exc = inr data ->
  exists alg body signature id,
    token = jose.JWS alg body signature
    /\ alg = oauth2.ALGORITHM
    /\ signature = jws_sign oauth2.SECRET_KEY alg body
    /\ jose.user_id body = Some id
    /\ data = schemas.TokenData.mk (Some id)
    /\ (forall e, jose.exp body = Some e -> jose.timegm now <= e).
Proof.
  unfold oauth2.verify_access_token, jwt.decode.
  destruct token as [raw|alg body signature]; [discriminate|].
  simpl. rewrite orb_false_r.
  destruct (String.eqb_spec alg oauth2.ALGORITHM) as [Halg|]; [|discriminate].
  simpl.
  destruct (String.eqb_spec signature (jws_sign oauth2.SECRET_KEY alg body))
    as [Hsig|]; [|discriminate].
  simpl. intros H.
  assert (Hexp : forall e, jose.exp body = Some e -> jose.timegm now <= e).
  { intros e He. rewrite He in H.
    destruct (e <? jose.timegm now) eqn:E; [discriminate|].
    now apply Z.ltb_ge in E. }
  assert (Hid : exists id, jose.user_id body = Some id
                           /\ data = schemas.TokenData.mk (Some id)).
  { destruct (jose.exp body) as [e|]; [destruct (e <? jose.timegm now)|];
      try discriminate;
      (destruct (jose.user_id body) as [id|]; [|discriminate]);
      exists id; split; congruence. }
  destruct Hid as (id & Hid & Hdata).
  exists alg, body, signature, id. repeat split; assumption.
Qed.

Lemma verify_accepts_only_signed_witness :
  @oauth2.verify_access_token example_env 5 example_token oauth2.credentials_exception
  = inr (schemas.TokenData.mk (Some 1))
  /\ exists alg body signature id,
       example_token = jose.JWS alg body signature
       /\ alg = "HS256"
       /\ jose.user_id body = Some id.
Proof.
  split; [reflexivity|].
  destruct (@verify_accepts_only_signed example_env 5 example_token
              oauth2.credentials_exception _ eq_refl)
    as (alg & body & signature & id & Htok & Halg & _ & Hid & _).
  exists alg, body, signature, id. repeat split; assumption.
Defined.

(** X7.  Time only ever invalidates a token: one that verifies at an
    instant verifies, with the same data, at every earlier instant; so a
    token refused at an instant is refused at every later one. *)
Theorem verify_earlier {env : Env} (earlier later : Z) (token : jose.token)
    (exc : HTTPException) (data : schemas.TokenData.t) :
  earlier <= later ->
  oauth2.verify_access_token later token exc = inr data ->
  oauth2.verify_access_token earlier token exc = inr data.
Proof.
  intros Hle. unfold oauth2.verify_access_token, jwt.decode.
  destruct token as [raw|alg body signature]; [discriminate|].
  destruct (negb (existsb _ _)); [discriminate|].
  destruct (negb (String.eqb _ _)); [discriminate|].
  destruct (jose.exp body) as [e|]; [|auto].
  destruct (e <? jose.timegm later) eqn:E; [discriminate|].
  apply Z.ltb_ge in E.
  assert (Hmono : jose.timegm earlier <= jose.timegm later)
    by (unfold jose.timegm; apply Z.div_le_mono; lia).
  replace (e <? jose.timegm earlier) with false; [auto|].
  symmetry. apply Z.ltb_ge. lia.
Qed.

Lemma verify_earlier_witness :
  3 <= 1800999999
  /\ @oauth2.verify_access_token example_env 1800999999 example_token
       oauth2.credentials_exception = inr (schemas.TokenData.mk (Some 1))
  /\ @oauth2.verify_access_token example_env 3 example_token
       oauth2.credentials_exception = inr (schemas.TokenData.mk (Some 1)).
Proof.
  assert (Hle : 3 <= 1800999999) by discriminate.
  split; [exact Hle|]. split; [reflexivity|].
  exact (@verify_earlier example_env 3 1800999999 example_token
           oauth2.credentials_exception _ Hle eq_refl).
Defined.

Lemma verify_data_id {env : Env} (now : Z) (token : jose.token)
    (exc : HTTPException) (data : schemas.TokenData.t) :
  oauth2.verify_access_token now token exc = inr data ->
  exists id, data = schemas.TokenData.mk (Some id).
Proof.
  unfold oauth2.verify_access_token.
  destruct (jwt.decode _ _ _ _) as [body|]; [|discriminate].
  destruct (jose.user_id body) as [id|]; [|discriminate].
  intros [= <-]. now exists id.
Qed.

(** X8.  Identity resolution never returns anyone but the subject of the
    token: a resolved user is a row of the users table whose id is the
    user id that the token verifies to, and resolving writes nothing. *)
Theorem resolved_user_is_subject {env : Env} (now : Z) (token : jose.token)
    (st st' : Store) (u : models.User.t) :
  oauth2.get_current_user now token st = (inr u, st') ->
  st' = st
  /\ In u (users st)
  /\ oauth2.verify_access_token now token oauth2.credentials_exception
     = inr (schemas.TokenData.mk (Some (models.User.id u))).
Proof.
  intros H. destruct (get_current_user_inv _ _ _ _ _ H) as [-> Hu].
  split; [reflexivity|]. split; [assumption|].
  unfold oauth2.get_current_user in H.
  destruct (oauth2.verify_access_token now token oauth2.credentials_exception)
    as [e|data] eqn:V; [discriminate|].
  destruct (verify_data_id _ _ _ _ V) as (id & ->).
  unfold bind, query in H. simpl in H.
  destruct (first _) as [v|] eqn:F; [|discriminate].
  injection H as ->. apply first_filter_Some in F. destruct F as [_ F].
  apply Z.eqb_eq in F. now rewrite F.
Qed.

Lemma resolved_user_is_subject_witness :
  @oauth2.get_current_user example_env 5 example_token example_store
  = (inr example_user, example_store)
  /\ @oauth2.verify_access_token example_env 5 example_token
       oauth2.credentials_exception
     = inr (schemas.TokenData.mk (Some (models.User.id example_user))).
Proof.
  split; [reflexivity|].
  exact (proj2 (proj2 (@resolved_user_is_subject example_env 5 example_token
                         example_store example_store example_user eq_refl))).
Defined.

(** ** The application as a whole *)

Lemma get_current_user_fails {env : Env} (now : Z) (token : jose.token)
    (st : Store) (e : Exn) :
  fst (oauth2.get_current_user now token st) = inl e ->
  oauth2.get_current_user now token st
  = (inl (Raise oauth2.credentials_exception), st).
Proof.
  unfold oauth2.get_current_user, oauth2.verify_access_token.
  destruct (jwt.decode _ _ _ _) as [body|]; [|reflexivity].
  destruct (jose.user_id body) as [id|]; [|reflexivity].
  unfold bind, query. simpl.
  destruct (first _); [discriminate | reflexivity].
Qed.

(** X9.  No route that depends on [get_current_user] runs its handler for
    a token that does not resolve: the answer is the 401 of the
    credentials exception and the store is left as it was, whatever the
    route and its arguments. *)
Theorem unresolved_token_refused {env : Env} (now : Z) (req : main.Request)
    (token : jose.token) (st : Store) (e : Exn) :
  request_token req = Some token ->
  fst (oauth2.get_current_user now token st) = inl e ->
  main.serve now req st
  = (main.mkHTTPResponse HTTP_401_UNAUTHORIZED
       (main.JsonDetail "Could not validate credentials")
       [("WWW-Authenticate", "Bearer")], st).
Proof.
  intros Htok Hfail.
  destruct req; simpl in Htok; try discriminate; injection Htok as ->;
    apply get_current_user_fails in Hfail;
    simpl; unfold main.respond, bind; rewrite Hfail; reflexivity.
Qed.

Lemma unresolved_token_refused_witness :
  let req := main.DeletePost
               (jose.JWS "none" (jose.mkPayload (Some 1) None) EmptyString) 1 in
  @request_token example_env req
  = Some (jose.JWS "none" (jose.mkPayload (Some 1) None) EmptyString)
  /\ fst (@oauth2.get_current_user example_env 5
            (jose.JWS "none" (jose.mkPayload (Some 1) None) EmptyString) example_store)
     = inl (Raise oauth2.credentials_exception)
  /\ snd (@main.serve example_env 5 req example_store) = example_store
  /\ main.status (fst (@main.serve example_env 5 req example_store)) = 401.
Proof.
  split; [reflexivity|]. split; [reflexivity|].
  pose proof (@unresolved_token_refused example_env 5
                (main.DeletePost (jose.JWS "none" (jose.mkPayload (Some 1) None)
                                    EmptyString) 1)
                _ example_store _ eq_refl eq_refl) as H.
  cbv zeta. rewrite H. split; reflexivity.
Defined.

(** X10.  The routes that only read (login, get-user, list-posts and
    get-post) leave the whole store, sequences included, as it was,
    whatever they answer. *)
Theorem reads_write_nothing {env : Env} (now : Z) (st : Store) :
  (forall username password,
     snd (main.serve now (main.Login username password) st) = st)
  /\ (forall id, snd (main.serve now (main.GetUser id) st) = st)
  /\ (forall token limit skip search,
        snd (main.serve now (main.GetPosts token limit skip search) st) = st)
  /\ (forall token id, snd (main.serve now (main.GetPost token id) st) = st).
Proof.
  repeat split; intros; unfold main.serve; rewrite respond_state.
  - rewrite login_eval. destruct (has_nul _); [reflexivity|].
    destruct (first _) as [u|]; [|reflexivity].
    now destruct (utils.verify_password _ _) as [e|[|]].
  - unfold user.get_user, bind, query. now destruct (first _).
  - unfold bind.
    destruct (oauth2.get_current_user now token st) as [[e|c] st'] eqn:E.
    + pose proof (get_current_user_reads now token st) as R. now rewrite E in R.
    + apply get_current_user_inv in E. destruct E as [-> _].
      unfold post.get_posts. now destruct (has_nul _).
  - unfold bind.
    destruct (oauth2.get_current_user now token st) as [[e|c] st'] eqn:E.
    + pose proof (get_current_user_reads now token st) as R. now rewrite E in R.
    + apply get_current_user_inv in E. destruct E as [-> _].
      unfold post.get_post, bind, query. now destruct (first _).
Qed.

Ltac success_status H :=
  simpl in H; unfold HTTP_201_CREATED, HTTP_204_NO_CONTENT in H; lia.

Lemma render_Post_owner {env : Env} (st : Store) (p : models.Post.t) :
  has_user st (models.Post.owner_id p) = true -> main.render_Post st p <> None.
Proof.
  intros H. unfold main.render_Post.
  destruct (first _) eqn:F; [discriminate|].
  apply first_filter_existsb in F. unfold has_user in H. congruence.
Qed.

(** X11.  A request that is answered with an error status (400 or above)
    has changed no row of any table, whichever route it went to and for
    whatever reason it failed; at most a sequence value is spent. *)
Theorem failed_request_keeps_rows {env : Env} (now : Z) (req : main.Request)
    (st : Store) :
  400 <= main.status (fst (main.serve now req st)) ->
  tables (snd (main.serve now req st)) = tables st.
Proof.
  destruct req; unfold main.serve; rewrite respond_state; unfold main.respond.
  - (* login *)
    intros _. rewrite login_eval. destruct (has_nul _); [reflexivity|].
    destruct (first _) as [u|]; [|reflexivity].
    now destruct (utils.verify_password _ _) as [e|[|]].
  - (* register *)
    rewrite create_user_eval.
    destruct (_ <? _); [reflexivity|]. destruct (has_nul _); [reflexivity|].
    unfold insert_user. cbn [models.User.id].
    destruct (_ || _); [reflexivity|]. destruct (_ <? _); [reflexivity|].
    destruct (_ || _); [reflexivity|]. intros H. success_status H.
  - (* get user *)
    intros _. unfold user.get_user, bind, query. now destruct (first _).
  - (* list posts *)
    intros _. unfold bind.
    destruct (oauth2.get_current_user now token st) as [[e|c] st'] eqn:E.
    + pose proof (get_current_user_reads now token st) as R. rewrite E in R.
      simpl in *. now subst.
    + apply get_current_user_inv in E. destruct E as [-> _].
      unfold post.get_posts. now destruct (has_nul _).
  - (* create post *)
    unfold bind.
    destruct (oauth2.get_current_user now token st) as [[e|c] st'] eqn:E.
    + pose proof (get_current_user_reads now token st) as R. rewrite E in R.
      simpl in *. now subst.
    + apply get_current_user_inv in E. destruct E as [-> Hc].
      rewrite create_post_insert. unfold insert_post. cbn [models.Post.id].
      destruct (_ || _); [reflexivity|]. destruct (_ <? _); [reflexivity|].
      destruct (has_post st (posts_id_seq st)
                || negb (has_user st (models.User.id c))) eqn:Hchk;
        [reflexivity|].
      apply orb_false_iff in Hchk. destruct Hchk as [_ Hown].
      apply negb_false_iff in Hown.
      match goal with
      | |- context [main.render_Post ?s ?p] =>
          pose proof (@render_Post_owner env s p Hown) as Hr;
          destruct (main.render_Post s p); [|congruence]
      end.
      intros H. success_status H.
  - (* get post *)
    intros _. unfold bind.
    destruct (oauth2.get_current_user now token st) as [[e|c] st'] eqn:E.
    + pose proof (get_current_user_reads now token st) as R. rewrite E in R.
      simpl in *. now subst.
    + apply get_current_user_inv in E. destruct E as [-> _].
      unfold post.get_post, bind, query. now destruct (first _).
  - (* delete post *)
    unfold bind.
    destruct (oauth2.get_current_user now token st) as [[e|c] st'] eqn:E.
    + pose proof (get_current_user_reads now token st) as R. rewrite E in R.
      simpl in *. now subst.
    + apply get_current_user_inv in E. destruct E as [-> _].
      unfold post.delete_post, bind, query.
      destruct (first _) as [p|]; [|reflexivity].
      destruct (negb _); [reflexivity|].
      simpl. intros H. success_status H.
  - (* update post *)
    unfold bind.
    destruct (oauth2.get_current_user now token st) as [[e|c] st'] eqn:E.
    + pose proof (get_current_user_reads now token st) as R. rewrite E in R.
      simpl in *. now subst.
    + apply get_current_user_inv in E. destruct E as [-> Hc].
      rewrite update_post_eval.
      destruct (first _) as [p|] eqn:F; [|reflexivity].
      destruct (models.Post.owner_id p =? models.User.id c) eqn:Hown;
        [|reflexivity].
      apply Z.eqb_eq in Hown. cbn [negb].
      destruct (_ || _); [reflexivity|]. cbv zeta.
      match goal with
      | |- context [main.render_Post ?s ?p] =>
          assert (Hr : main.render_Post s p <> None)
            by (apply render_Post_owner; simpl; rewrite Hown;
                apply has_user_true; eauto);
          destruct (main.render_Post s p); [|congruence]
      end.
      intros H. success_status H.
  - (* vote *)
    unfold bind.
    destruct (oauth2.get_current_user now token st) as [[e|c] st'] eqn:E.
    + pose proof (get_current_user_reads now token st) as R. rewrite E in R.
      simpl in *. now subst.
    + apply get_current_user_inv in E. destruct E as [-> _].
      destruct (schemas.Vote.valid body); [|reflexivity].
      unfold vote.vote, bind, query. simpl.
      rewrite vote_post_lookup.
      destruct (has_post st _); [|reflexivity].
      rewrite vote_lookup.
      destruct (schemas.Vote.dir body =? 1).
      * destruct (has_vote st _ _); [reflexivity|].
        unfold insert_vote. simpl.
        destruct (_ || _); [reflexivity|].
        simpl. intros H. success_status H.
      * destruct (has_vote st _ _); [|reflexivity].
        simpl. intros H. success_status H.
Qed.

Lemma failed_request_keeps_rows_witness :
  let req := main.CreateUser "pepper" (schemas.UserCreate.mk "ann@example.com" "other") in
  400 <= main.status (fst (@main.serve example_env 12 req example_store))
  /\ tables (snd (@main.serve example_env 12 req example_store)) = tables example_store
  /\ users_id_seq (snd (@main.serve example_env 12 req example_store)) = 3.
Proof.
  assert (H : 400 <= main.status
                       (fst (@main.serve example_env 12
                               (main.CreateUser "pepper"
                                  (schemas.UserCreate.mk "ann@example.com" "other"))
                               example_store)))
    by discriminate.
  split; [exact H|]. split; [|reflexivity].
  exact (@failed_request_keeps_rows example_env 12 _ example_store H).
Defined.

(** ** Voting, step after step *)

Lemma filter_all {A : Type} (f : A -> bool) (l : list A) :
  (forall x, In x l -> f x = true) -> filter f l = l.
Proof.
  induction l as [|a l IH]; intros H; simpl; [reflexivity|].
  rewrite (H a (or_introl eq_refl)). f_equal. apply IH. intros x Hx. apply H. now right.
Qed.

Lemma store_eta (st : Store) :
  mkStore (users st) (posts st) (votes st) (users_id_seq st) (posts_id_seq st) = st.
Proof. now destruct st. Qed.

(** The vote handler, by the two lookups it makes. *)
Lemma vote_eval (i d : Z) (c : models.User.t) (st : Store) :
  vote.vote (schemas.Vote.mk i d) c st
  = if has_post st i then
      if d =? 1 then
        if has_vote st (models.User.id c) i then
          (inl (Raise (mkHTTPException HTTP_409_CONFLICT
                         ("user " ++ str (models.User.id c)
                            ++ " has already voted on post " ++ str i) [])), st)
        else
          bind (insert_vote (models.Vote.mk (models.User.id c) i))
               (fun _ => ret "successfully added vote") st
      else
        if has_vote st (models.User.id c) i then
          bind (delete_votes (fun v => (models.Vote.post_id v =? i)
                                       && (models.Vote.user_id v =? models.User.id c)))
               (fun _ => ret "successfully deleted vote") st
        else
          (inl (Raise (mkHTTPException HTTP_404_NOT_FOUND "vote does not exist" [])), st)
    else
      (inl (Raise (mkHTTPException 404
                     ("Post with id " ++ str i ++ " does not exist") [])), st).
Proof.
  unfold vote.vote, bind, query. simpl. rewrite vote_post_lookup.
  destruct (has_post st i); [|reflexivity].
  rewrite vote_lookup.
  destruct (d =? 1); destruct (has_vote st (models.User.id c) i); reflexivity.
Qed.

(** X12.  For a resolved caller, an existing post and no vote of the
    caller on it yet: retracting is 404; casting succeeds; casting again
    is then 409; and retracting after the cast succeeds and gives back
    exactly the store from before the cast. *)
Theorem cast_then_retract {env : Env} (now : Z) (token : jose.token)
    (st : Store) (c : models.User.t) (post_id : Z) :
  oauth2.get_current_user now token st = (inr c, st) ->
  (exists p, In p (posts st) /\ models.Post.id p = post_id) ->
  ~ In (models.Vote.mk (models.User.id c) post_id) (votes st) ->
  let cast := schemas.Vote.mk post_id 1 in
  let retract := schemas.Vote.mk post_id 0 in
  exists voted,
    vote.vote retract c st
    = (inl (Raise (mkHTTPException HTTP_404_NOT_FOUND "vote does not exist" [])), st)
    /\ vote.vote cast c st = (inr "successfully added vote", voted)
    /\ vote.vote cast c voted
       = (inl (Raise (mkHTTPException HTTP_409_CONFLICT
                        ("user " ++ str (models.User.id c)
                           ++ " has already voted on post " ++ str post_id) [])),
          voted)
    /\ vote.vote retract c voted = (inr "successfully deleted vote", st).
Proof.
  intros Hauth Hpost Hnew cast retract.
  apply get_current_user_inv in Hauth. destruct Hauth as [_ Hc].
  assert (Hu : has_user st (models.User.id c) = true)
    by (apply has_user_true; eauto).
  apply has_post_true in Hpost.
  assert (Hv : has_vote st (models.User.id c) post_id = false).
  { destruct (has_vote st (models.User.id c) post_id) eqn:E; [|reflexivity].
    apply has_vote_true in E. contradiction. }
  set (voted := mkStore (users st) (posts st)
                        (votes st ++ [models.Vote.mk (models.User.id c) post_id])
                        (users_id_seq st) (posts_id_seq st)).
  assert (Hpost' : has_post voted post_id = true) by exact Hpost.
  assert (Hv' : has_vote voted (models.User.id c) post_id = true).
  { apply has_vote_true. simpl. apply in_app_iff. right. now left. }
  exists voted. subst cast retract. rewrite !vote_eval.
  rewrite Hpost, Hpost', Hv, Hv'. simpl. repeat split.
  - unfold bind, insert_vote, ret. simpl. now rewrite Hv, Hu, Hpost.
  - unfold bind, delete_votes, ret. simpl. f_equal.
    rewrite filter_app. simpl. rewrite !Z.eqb_refl. simpl. rewrite app_nil_r.
    rewrite filter_all; [apply store_eta|].
    intros v Hin. apply negb_true_iff.
    destruct (_ && _) eqn:E; [|reflexivity].
    apply vote_query_iff in E. subst v. contradiction.
Qed.

Lemma cast_then_retract_witness :
  let voted := mkStore [example_user] [example_post] [models.Vote.mk 1 1] 2 2 in
  @oauth2.get_current_user example_env 5 example_token example_store
  = (inr example_user, example_store)
  /\ (exists p, In p (posts example_store) /\ models.Post.id p = 1)
  /\ ~ In (models.Vote.mk (models.User.id example_user) 1) (votes example_store)
  /\ vote.vote (schemas.Vote.mk 1 1) example_user example_store
     = (inr "successfully added vote", voted)
  /\ vote.vote (schemas.Vote.mk 1 0) example_user voted
     = (inr "successfully deleted vote", example_store).
Proof.
  assert (Hp : exists p, In p (posts example_store) /\ models.Post.id p = 1)
    by (exists example_post; split; [left|]; reflexivity).
  assert (Hn : ~ In (models.Vote.mk (models.User.id example_user) 1)
                    (votes example_store))
    by (intros []).
  split; [reflexivity|]. split; [exact Hp|]. split; [exact Hn|].
  destruct (@cast_then_retract example_env 5 example_token example_store
              example_user 1 eq_refl Hp Hn)
    as (voted & _ & Hcast & _ & Hretract).
  assert (E : voted = mkStore [example_user] [example_post] [models.Vote.mk 1 1] 2 2).
  { assert (C : vote.vote (schemas.Vote.mk 1 1) example_user example_store
                = (inr "successfully added vote",
                   mkStore [example_user] [example_post] [models.Vote.mk 1 1] 2 2))
      by reflexivity.
    rewrite C in Hcast. now injection Hcast. }
  subst voted. split; [exact Hcast | exact Hretract].
Defined.

Lemma get_post_found (st : Store) (c : models.User.t) (p : models.Post.t) :
  NoDup (map models.Post.id (posts st)) -> In p (posts st) ->
  post.get_post (models.Post.id p) c st
  = (inr (p, vote_count st (models.Post.id p)), st).
Proof.
  intros Hpk Hp. unfold post.get_post, bind, query.
  rewrite posts_with_votes_spec by assumption.
  pose proof (first_filter_pk _ _ Hpk Hp) as F.
  destruct (filter _ (posts st)) as [|q l]; [discriminate|].
  simpl in F. injection F as ->. reflexivity.
Qed.

Lemma get_post_missing (st : Store) (c : models.User.t) (id : Z) :
  NoDup (map models.Post.id (posts st)) ->
  (forall p, In p (posts st) -> models.Post.id p <> id) ->
  post.get_post id c st
  = (inl (Raise (mkHTTPException HTTP_404_NOT_FOUND
                   ("Post with " ++ str id ++ " was not found") [])), st).
Proof.
  intros Hpk Hnone. unfold post.get_post, bind, query.
  rewrite posts_with_votes_spec by assumption.
  rewrite filter_nil; [reflexivity|].
  intros p Hp. apply Z.eqb_neq. auto.
Qed.

Lemma count_without (f g : models.Vote.t -> bool) (x : models.Vote.t)
    (l : list models.Vote.t) :
  NoDup l -> In x l -> (forall v, g v = true <-> v = x) -> f x = true ->
  Z.of_nat (length (filter f (filter (fun v => negb (g v)) l)))
  = Z.of_nat (length (filter f l)) - 1.
Proof.
  intros Hnd Hin Hg Hf. induction l as [|a l IH]; [destruct Hin|].
  inversion Hnd as [|? ? Hnotin Hnd']; subst.
  destruct Hin as [->|Hin].
  - cbn [filter]. rewrite (proj2 (Hg x) eq_refl), Hf. cbn [negb length].
    rewrite (filter_all (fun v => negb (g v)) l).
    + lia.
    + intros v Hv. apply negb_true_iff. destruct (g v) eqn:E; [|reflexivity].
      apply Hg in E. subst v. contradiction.
  - assert (Ha : g a = false).
    { destruct (g a) eqn:E; [|reflexivity]. apply Hg in E. subst a. contradiction. }
    cbn [filter]. rewrite Ha. cbn [negb filter]. specialize (IH Hnd' Hin).
    destruct (f a); cbn [length]; lia.
Qed.

Lemma count_other_post (i j : Z) (u : Z) (l : list models.Vote.t) :
  i <> j ->
  filter (fun v => models.Vote.post_id v =? j)
         (filter (fun v => negb ((models.Vote.post_id v =? i)
                                 && (models.Vote.user_id v =? u))) l)
  = filter (fun v => models.Vote.post_id v =? j) l.
Proof.
  intros Hij. induction l as [|a l IH]; simpl; [reflexivity|].
  destruct (models.Vote.post_id a =? i) eqn:Ei; simpl.
  - assert (Ej : (models.Vote.post_id a =? j) = false)
      by (apply Z.eqb_neq; apply Z.eqb_eq in Ei; lia).
    destruct (models.Vote.user_id a =? u); simpl; rewrite Ej; exact IH.
  - destruct (models.Vote.post_id a =? j); [f_equal|]; exact IH.
Qed.

(** X13.  On a store that satisfies the schema constraints, a successful
    vote request on a post moves the count that get-post reports for that
    post by exactly one, up for a cast and down for a retraction, and
    leaves the post row and the counts of all other posts as they were. *)
Theorem vote_moves_count (st st' : Store) (c : models.User.t)
    (p : models.Post.t) (dir : Z) (message : string) :
  store_ok st ->
  In p (posts st) ->
  vote.vote (schemas.Vote.mk (models.Post.id p) dir) c st = (inr message, st') ->
  post.get_post (models.Post.id p) c st
  = (inr (p, vote_count st (models.Post.id p)), st)
  /\ post.get_post (models.Post.id p) c st'
     = (inr (p, vote_count st (models.Post.id p) + (if dir =? 1 then 1 else -1)), st')
  /\ (forall q, In q (posts st) -> models.Post.id q <> models.Post.id p ->
        post.get_post (models.Post.id q) c st'
        = (inr (q, vote_count st (models.Post.id q)), st')).
Proof.
  intros Hok Hp Hvote.
  pose proof (ok_post_pk _ Hok) as Hpk.
  split; [now apply get_post_found|].
  rewrite vote_eval in Hvote.
  destruct (has_post st (models.Post.id p)); [|discriminate].
  destruct (dir =? 1).
  - destruct (has_vote st _ _); [discriminate|].
    unfold bind, insert_vote, ret in Hvote.
    destruct (_ || _); [discriminate|]. injection Hvote as _ <-.
    split.
    + rewrite get_post_found by assumption. do 3 f_equal.
      unfold vote_count. simpl. rewrite filter_app, length_app. simpl.
      rewrite Z.eqb_refl. simpl. lia.
    + intros q Hq Hne. rewrite get_post_found by assumption. do 3 f_equal.
      unfold vote_count. simpl. rewrite filter_app, length_app. simpl.
      replace (models.Post.id p =? models.Post.id q) with false
        by (symmetry; apply Z.eqb_neq; lia).
      simpl. lia.
  - destruct (has_vote st _ _) eqn:Hv; [|discriminate].
    unfold bind, delete_votes, ret in Hvote. injection Hvote as _ <-.
    apply has_vote_true in Hv.
    split.
    + rewrite get_post_found by assumption. do 3 f_equal.
      unfold vote_count. simpl.
      rewrite (count_without _ _ (models.Vote.mk (models.User.id c) (models.Post.id p)));
        [lia | exact (ok_vote_pk _ Hok) | exact Hv | | simpl; apply Z.eqb_refl].
      intros v. apply vote_query_iff.
    + intros q Hq Hne. rewrite get_post_found by assumption. do 3 f_equal.
      unfold vote_count. simpl. rewrite count_other_post; [reflexivity | lia].
Qed.

Lemma vote_moves_count_witness :
  let voted := mkStore [example_user] [example_post] [models.Vote.mk 1 1] 2 2 in
  store_ok example_store
  /\ In example_post (posts example_store)
  /\ vote.vote (schemas.Vote.mk (models.Post.id example_post) 1) example_user
       example_store
     = (inr "successfully added vote", voted)
  /\ post.get_post 1 example_user example_store = (inr (example_post, 0), example_store)
  /\ post.get_post 1 example_user voted = (inr (example_post, 1), voted).
Proof.
  split; [exact example_store_ok|]. split; [left; reflexivity|].
  split; [reflexivity|].
  destruct (vote_moves_count example_store _ example_user example_post 1 _
              example_store_ok (or_introl eq_refl) eq_refl) as (Hbefore & Hafter & _).
  split; [exact Hbefore | exact Hafter].
Defined.

(** ** After a delete, after an update *)

Lemma count_skip_post (i j : Z) (l : list models.Vote.t) :
  i <> j ->
  filter (fun v => models.Vote.post_id v =? j)
         (filter (fun v => negb (models.Vote.post_id v =? i)) l)
  = filter (fun v => models.Vote.post_id v =? j) l.
Proof.
  intros Hij. induction l as [|a l IH]; simpl; [reflexivity|].
  destruct (models.Vote.post_id a =? i) eqn:Ei; simpl.
  - replace (models.Vote.post_id a =? j) with false; [exact IH|].
    symmetry. apply Z.eqb_neq. apply Z.eqb_eq in Ei. lia.
  - destruct (models.Vote.post_id a =? j); [f_equal|]; exact IH.
Qed.

Lemma delete_post_done (st st' : Store) (c : models.User.t) (id : Z)
    (r : post.Response) :
  post.delete_post id c st = (inr r, st') ->
  (exists p, In p (posts st) /\ models.Post.id p = id)
  /\ st' = mkStore (users st)
                   (filter (fun q => negb (models.Post.id q =? id)) (posts st))
                   (filter (fun v => negb (models.Vote.post_id v =? id)) (votes st))
                   (users_id_seq st) (posts_id_seq st).
Proof.
  unfold post.delete_post, bind, query.
  destruct (first _) as [p|] eqn:F; [|discriminate].
  destruct (negb _); [discriminate|].
  apply first_filter_Some in F. destruct F as [Hp Hid]. apply Z.eqb_eq in Hid.
  unfold delete_posts, ret. simpl. intros [= _ <-].
  split; [eauto|]. f_equal. apply filter_ext. intros v. f_equal.
  apply cascade_one_post. eauto.
Qed.

(** X14.  After a successful delete of post [id], on a store with
    distinct post ids: no post row has the id and no vote row references
    it; every other post is still there with the count it had; and
    get-post, update, delete and both directions of vote on that id all
    answer 404, for any caller. *)
Theorem deleted_post_is_gone (st st' : Store) (c : models.User.t) (id : Z)
    (r : post.Response) :
  NoDup (map models.Post.id (posts st)) ->
  post.delete_post id c st = (inr r, st') ->
  (forall p, In p (posts st') -> models.Post.id p <> id)
  /\ (forall v, In v (votes st') -> models.Vote.post_id v <> id)
  /\ (forall q c', In q (posts st) -> models.Post.id q <> id ->
        post.get_post (models.Post.id q) c' st'
        = (inr (q, vote_count st (models.Post.id q)), st'))
  /\ (forall c' body dir,
        let not_found :=
          Raise (mkHTTPException HTTP_404_NOT_FOUND
                   ("Post with " ++ str id ++ " was not found") []) in
        post.get_post id c' st' = (inl not_found, st')
        /\ post.update_post id body c' st' = (inl not_found, st')
        /\ post.delete_post id c' st' = (inl not_found, st')
        /\ vote.vote (schemas.Vote.mk id dir) c' st'
           = (inl (Raise (mkHTTPException 404
                            ("Post with id " ++ str id ++ " does not exist") [])),
              st')).
Proof.
  intros Hpk Hdel. apply delete_post_done in Hdel. destruct Hdel as [_ ->].
  assert (Hgone : forall p,
            In p (filter (fun q => negb (models.Post.id q =? id)) (posts st)) ->
            models.Post.id p <> id).
  { intros p Hp. apply filter_In in Hp. destruct Hp as [_ Hp].
    apply negb_true_iff in Hp. now apply Z.eqb_neq. }
  assert (Hpk' : NoDup (map models.Post.id
                          (filter (fun q => negb (models.Post.id q =? id)) (posts st))))
    by now apply NoDup_map_filter.
  split; [exact Hgone|]. split; [|split].
  - simpl. intros v Hv. apply filter_In in Hv. destruct Hv as [_ Hv].
    apply negb_true_iff in Hv. now apply Z.eqb_neq.
  - intros q c' Hq Hne.
    rewrite get_post_found.
    + do 3 f_equal. unfold vote_count. simpl.
      rewrite count_skip_post; [reflexivity | lia].
    + exact Hpk'.
    + simpl. apply filter_In. split; [assumption|].
      apply negb_true_iff. now apply Z.eqb_neq.
  - intros c' body dir not_found.
    assert (F : first (filter (fun q => models.Post.id q =? id)
                         (filter (fun q => negb (models.Post.id q =? id)) (posts st)))
                = None).
    { apply first_filter_None. intros q Hq. apply Z.eqb_neq. now apply Hgone. }
    split; [|split; [|split]].
    + apply get_post_missing; assumption.
    + unfold post.update_post, bind, query. simpl. now rewrite F.
    + unfold post.delete_post, bind, query. simpl. now rewrite F.
    + rewrite vote_eval.
      replace (has_post _ id) with false; [reflexivity|].
      symmetry. unfold has_post. simpl. apply existsb_false.
      intros q Hq. apply Z.eqb_neq. now apply Hgone.
Qed.

Lemma deleted_post_is_gone_witness :
  let after := mkStore [example_user] [] [] 2 2 in
  NoDup (map models.Post.id (posts example_store))
  /\ post.delete_post 1 example_user example_store
     = (inr (post.mkResponse 204), after)
  /\ post.get_post 1 example_user after
     = (inl (Raise (mkHTTPException 404 "Post with 1 was not found" [])), after).
Proof.
  split; [exact example_post_pk|]. split; [reflexivity|].
  destruct (deleted_post_is_gone example_store _ example_user 1 _
              example_post_pk eq_refl) as (_ & _ & _ & H).
  exact (proj1 (H example_user (schemas.PostCreate.mk "t" "c" true) 0)).
Defined.

(** X15.  After a successful update of post [id], on a store with
    distinct post ids, get-post on the id returns the row with the new
    title, content and published flag, the old creation instant and owner,
    and the vote count it had; and sending the same update again returns
    the same row and changes nothing. *)
Theorem update_then_get (st st' : Store) (c : models.User.t) (id : Z)
    (body : schemas.PostCreate.t) (r : option models.Post.t) :
  NoDup (map models.Post.id (posts st)) ->
  post.update_post id body c st = (inr r, st') ->
  exists p,
    In p (posts st)
    /\ models.Post.id p = id
    /\ models.Post.owner_id p = models.User.id c
    /\ let updated :=
         models.Post.mk id (schemas.PostCreate.title body)
           (schemas.PostCreate.content body) (schemas.PostCreate.published body)
           (models.Post.created_at p) (models.Post.owner_id p) in
       r = Some updated
       /\ post.get_post id c st' = (inr (updated, vote_count st id), st')
       /\ post.update_post id body c st' = (inr (Some updated), st').
Proof.
  intros Hpk Hupd.
  set (g := fun q => models.Post.mk (models.Post.id q)
                       (schemas.PostCreate.title body)
                       (schemas.PostCreate.content body)
                       (schemas.PostCreate.published body)
                       (models.Post.created_at q) (models.Post.owner_id q)).
  set (upd := fun q => if models.Post.id q =? id then g q else q).
  rewrite update_post_eval in Hupd.
  destruct (first _) as [p|] eqn:F; [|discriminate].
  destruct (models.Post.owner_id p =? models.User.id c) eqn:Hown; [|discriminate].
  cbn [negb] in Hupd.
  destruct (has_nul _ || has_nul _) eqn:Hnul; [discriminate|].
  cbv zeta in Hupd.
  change (map _ (posts st)) with (map upd (posts st)) in Hupd.
  injection Hupd as <- <-.
  assert (F' : first (filter (fun q => models.Post.id q =? id) (map upd (posts st)))
               = Some (g p)).
  { unfold upd. rewrite (first_filter_map_id (posts st) id g) by reflexivity.
    now rewrite F. }
  apply first_filter_Some in F. destruct F as [Hp Hid].
  apply Z.eqb_eq in Hid. apply Z.eqb_eq in Hown.
  assert (Hids : map models.Post.id (map upd (posts st)) = map models.Post.id (posts st)).
  { rewrite map_map. apply map_ext. intros q. unfold upd.
    now destruct (models.Post.id q =? id). }
  assert (Hgp : g p = models.Post.mk id (schemas.PostCreate.title body)
                        (schemas.PostCreate.content body)
                        (schemas.PostCreate.published body)
                        (models.Post.created_at p) (models.Post.owner_id p))
    by (unfold g; now rewrite Hid).
  exists p. split; [assumption|]. split; [assumption|]. split; [assumption|].
  cbv zeta. rewrite <- Hgp. split; [reflexivity|]. split.
  - assert (Hin : In (g p) (map upd (posts st))).
    { apply in_map_iff. exists p. split; [|assumption].
      unfold upd. now rewrite Hid, Z.eqb_refl. }
    pose proof (get_post_found
                  (mkStore (users st) (map upd (posts st)) (votes st)
                           (users_id_seq st) (posts_id_seq st))
                  c (g p)) as G.
    simpl in G. rewrite Hids in G. specialize (G Hpk Hin).
    rewrite Hid in G. exact G.
  - rewrite update_post_eval. cbn [posts users votes users_id_seq posts_id_seq].
    rewrite F'. cbn [g models.Post.owner_id models.Post.created_at].
    rewrite Hown, Z.eqb_refl, Hnul. cbn [negb]. cbv zeta.
    change (map _ (map upd (posts st))) with (map upd (map upd (posts st))).
    assert (Hidem : map upd (map upd (posts st)) = map upd (posts st)).
    { rewrite map_map. apply map_ext. intros q. unfold upd.
      destruct (models.Post.id q =? id) eqn:E; [|now rewrite E].
      simpl. now rewrite E. }
    rewrite Hidem. rewrite <- Hown, <- Hgp. reflexivity.
Qed.

Lemma update_then_get_witness :
  let body := schemas.PostCreate.mk "new title" "new content" true in
  let updated := models.Post.mk 1 "new title" "new content" true 5 1 in
  let after := mkStore [example_user] [updated] [] 2 2 in
  NoDup (map models.Post.id (posts example_store))
  /\ post.update_post 1 body example_user example_store = (inr (Some updated), after)
  /\ exists p,
       In p (posts example_store)
       /\ post.get_post 1 example_user after
          = (inr (models.Post.mk 1 "new title" "new content" true
                    (models.Post.created_at p) (models.Post.owner_id p), 0), after).
Proof.
  split; [exact example_post_pk|]. split; [reflexivity|].
  destruct (update_then_get example_store _ example_user 1
              (schemas.PostCreate.mk "new title" "new content" true) _
              example_post_pk eq_refl) as (p & Hp & _ & _ & H).
  cbv zeta in H. destruct H as (_ & Hget & _).
  exists p. split; [exact Hp | exact Hget].
Defined.

(** ** Pages of the listing *)

Lemma in_firstn {A : Type} (n : nat) (l : list A) (x : A) :
  In x (firstn n l) -> In x l.
Proof.
  revert l. induction n as [|n IH]; intros [|a l]; simpl; try tauto.
  intros [->|H]; auto.
Qed.

Lemma in_skipn {A : Type} (n : nat) (l : list A) (x : A) :
  In x (skipn n l) -> In x l.
Proof.
  revert l. induction n as [|n IH]; intros [|a l]; simpl; try tauto.
  intros H. right. now apply IH.
Qed.

Lemma firstn_plus {A : Type} (n m : nat) (l : list A) :
  firstn (n + m) l = (firstn n l ++ firstn m (skipn n l))%list.
Proof.
  revert l. induction n as [|n IH]; intros [|a l]; simpl;
    try reflexivity.
  - now destruct m.
  - now rewrite IH.
Qed.

Lemma get_posts_rows (st : Store) (c : models.User.t) (limit skip : option Z)
    (search : option string) (rows : list (models.Post.t * Z)) (st' : Store)
    (row : models.Post.t * Z) :
  NoDup (map models.Post.id (posts st)) ->
  post.get_posts c limit skip search st = (inr rows, st') ->
  In row rows ->
  In (fst row) (posts st) /\ snd row = vote_count st (models.Post.id (fst row)).
Proof.
  intros Hpk H Hin. unfold post.get_posts in H.
  destruct (has_nul _); [discriminate|].
  rewrite posts_with_votes_spec in H by assumption.
  unfold limit_offset in H. destruct (_ && _); [|discriminate].
  injection H as <- _.
  apply in_firstn, in_skipn in Hin.
  apply (Permutation_in _ (Permutation_sym (order_by_id_perm _))) in Hin.
  apply in_map_iff in Hin. destruct Hin as (p & <- & Hp).
  apply filter_In in Hp. simpl. tauto.
Qed.

Lemma search_no_nul (search : option string) :
  (forall s, search = Some s -> has_nul s = false) ->
  has_nul match search with Some s => s | None => EmptyString end = false.
Proof. intros H. destruct search as [s|]; [now apply H | reflexivity]. Qed.

(** X16.  Consecutive pages of list-posts tile the listing: for a search
    string without the NUL character and for non-negative [limit1],
    [limit2] and [skip] whose sum is below 2^63, the page of [limit1] rows
    after [skip], followed by the page of [limit2] rows after
    [skip + limit1], is the page of [limit1 + limit2] rows after [skip];
    no row is lost or repeated between pages. *)
Theorem pages_tile (st : Store) (c : models.User.t) (limit1 limit2 skip : Z)
    (search : option string) :
  (forall s, search = Some s -> has_nul s = false) ->
  0 <= limit1 -> 0 <= limit2 -> 0 <= skip -> skip + limit1 + limit2 < 2 ^ 63 ->
  exists page1 page2,
    post.get_posts c (Some limit1) (Some skip) search st = (inr page1, st)
    /\ post.get_posts c (Some limit2) (Some (skip + limit1)) search st
       = (inr page2, st)
    /\ post.get_posts c (Some (limit1 + limit2)) (Some skip) search st
       = (inr (page1 ++ page2)%list, st).
Proof.
  intros Hnul H1 H2 Hs Hsum. unfold post.get_posts.
  rewrite (search_no_nul _ Hnul).
  rewrite !limit_offset_ok by lia.
  eexists. eexists. split; [reflexivity|]. split; [reflexivity|].
  rewrite !Z2Nat.inj_add by lia.
  rewrite firstn_plus, skipn_skipn.
  now rewrite (Nat.add_comm (Z.to_nat limit1) (Z.to_nat skip)).
Qed.

Lemma pages_tile_witness :
  (forall s, Some "b" = Some s -> has_nul s = false)
  /\ 0 <= 1 /\ 0 <= 5 /\ 0 <= 0 /\ 0 + 1 + 5 < 2 ^ 63
  /\ exists page1 page2,
       post.get_posts example_user (Some 1) (Some 0) (Some "b") example_store
       = (inr page1, example_store)
       /\ post.get_posts example_user (Some 5) (Some (0 + 1)) (Some "b") example_store
          = (inr page2, example_store)
       /\ post.get_posts example_user (Some (1 + 5)) (Some 0) (Some "b") example_store
          = (inr (page1 ++ page2)%list, example_store).
Proof.
  assert (Hn : forall s, Some "b" = Some s -> has_nul s = false)
    by (intros s E; injection E as <-; reflexivity).
  assert (H1 : 0 <= 1) by discriminate.
  assert (H5 : 0 <= 5) by discriminate.
  assert (H0 : 0 <= 0) by discriminate.
  assert (Hs : 0 + 1 + 5 < 2 ^ 63) by reflexivity.
  split; [exact Hn|].
  split; [exact H1|]. split; [exact H5|]. split; [exact H0|]. split; [exact Hs|].
  exact (pages_tile example_store example_user 1 5 0 (Some "b") Hn H1 H5 H0 Hs).
Defined.

(** X17.  List-posts and get-post agree: on a store with distinct post
    ids, every row that list-posts returns, on whatever page and for
    whatever search, is a post of the store, and get-post on its id
    returns the same post with the same count. *)
Theorem listed_row_is_get_post (st st' : Store) (c : models.User.t)
    (limit skip : option Z) (search : option string)
    (rows : list (models.Post.t * Z)) (p : models.Post.t) (n : Z) :
  NoDup (map models.Post.id (posts st)) ->
  post.get_posts c limit skip search st = (inr rows, st') ->
  In (p, n) rows ->
  In p (posts st)
  /\ post.get_post (models.Post.id p) c st = (inr (p, n), st).
Proof.
  intros Hpk H Hin.
  destruct (get_posts_rows _ _ _ _ _ _ _ _ Hpk H Hin) as [Hp Hn].
  simpl in Hp, Hn. subst n. split; [assumption|].
  now apply get_post_found.
Qed.

Lemma listed_row_is_get_post_witness :
  NoDup (map models.Post.id (posts example_store))
  /\ post.get_posts example_user None None (Some "b") example_store
     = (inr [(example_post, 0)], example_store)
  /\ In (example_post, 0) [(example_post, 0)]
  /\ post.get_post 1 example_user example_store = (inr (example_post, 0), example_store).
Proof.
  split; [exact example_post_pk|]. split; [reflexivity|].
  split; [left; reflexivity|].
  exact (proj2 (listed_row_is_get_post example_store _ example_user None None
                  (Some "b") _ example_post 0 example_post_pk eq_refl
                  (or_introl eq_refl))).
Defined.

(** ** What holds in every reachable store *)

(** X18.  In every store the application can reach from the empty
    database, the constraints declared in models.py hold: user ids, user
    e-mails and post ids are unique and below their sequences, every post
    has its owner in the users table, and every vote references a user and
    a post that exist. *)
Theorem reachable_store_constraints {env : Env} (st : Store) :
  main.reachable st ->
  NoDup (map models.User.id (users st))
  /\ NoDup (map models.User.email (users st))
  /\ NoDup (map models.Post.id (posts st))
  /\ (forall u, In u (users st) -> models.User.id u < users_id_seq st)
  /\ (forall p, In p (posts st) ->
        models.Post.id p < posts_id_seq st
        /\ exists u, In u (users st) /\ models.User.id u = models.Post.owner_id p)
  /\ (forall v, In v (votes st) ->
        (exists u, In u (users st) /\ models.User.id u = models.Vote.user_id v)
        /\ (exists p, In p (posts st) /\ models.Post.id p = models.Vote.post_id v)).
Proof.
  intros Hr. apply reachable_ok in Hr.
  destruct Hr as [Hupk Hemail Huseq Hppk Hpseq Hpown _ Hvu Hvp].
  repeat split; auto.
  - apply has_user_true. auto.
  - apply has_user_true. auto.
  - apply has_post_true. auto.
Qed.

Lemma reachable_store_constraints_witness :
  @main.reachable example_env example_store
  /\ NoDup (map models.User.email (users example_store))
  /\ (forall p, In p (posts example_store) ->
        exists u, In u (users example_store)
                  /\ models.User.id u = models.Post.owner_id p).
Proof.
  split; [exact example_store_reachable|].
  destruct (@reachable_store_constraints example_env example_store
              example_store_reachable) as (_ & He & _ & _ & Hp & _).
  split; [exact He|]. intros p Hin. exact (proj2 (Hp p Hin)).
Defined.

(** X19.  Post ids are never reused: along any sequence of requests the
    posts sequence does not go back, and an id below the sequence that no
    post has (one that was handed out and deleted, or spent by a failed
    insert) is the id of no post ever after. *)
Theorem post_id_not_reused {env : Env} (st st' : Store) (id : Z) :
  main.serves st st' ->
  id < posts_id_seq st ->
  (forall p, In p (posts st) -> models.Post.id p <> id) ->
  posts_id_seq st <= posts_id_seq st'
  /\ forall p', In p' (posts st') -> models.Post.id p' <> id.
Proof.
  intros Hs Hid Hnone.
  destruct (serves_keeps_owner _ _ Hs) as [Hseq K].
  split; [assumption|]. intros p' Hp' E.
  destruct (K p' Hp' ltac:(lia)) as (p & Hp & Ep & _).
  apply (Hnone p Hp). congruence.
Qed.

Lemma post_id_not_reused_witness :
  let deleted := mkStore [example_user] [] [] 2 2 in
  let later :=
    mkStore [example_user] [models.Post.mk 2 "wer" "rew" true 8 1] [] 2 3 in
  @main.serves example_env deleted later
  /\ 1 < posts_id_seq deleted
  /\ (forall p, In p (posts deleted) -> models.Post.id p <> 1)
  /\ forall p', In p' (posts later) -> models.Post.id p' <> 1.
Proof.
  assert (Hs : @main.serves example_env (mkStore [example_user] [] [] 2 2)
                 (mkStore [example_user]
                          [models.Post.mk 2 "wer" "rew" true 8 1] [] 2 3)).
  { exact (@main.serves_more example_env _ 8
             (main.CreatePost example_token (schemas.PostCreate.mk "wer" "rew" true))
             _ (@main.serves_none example_env _)). }
  assert (Hid : 1 < posts_id_seq (mkStore [example_user] [] [] 2 2)) by reflexivity.
  assert (Hn : forall p, In p (posts (mkStore [example_user] [] [] 2 2)) ->
                         models.Post.id p <> 1)
    by (intros p []).
  split; [exact Hs|]. split; [exact Hid|]. split; [exact Hn|].
  exact (proj2 (@post_id_not_reused example_env _ _ 1 Hs Hid Hn)).
Defined.

Lemma render_rows {env : Env} (st : Store) (rows : list (models.Post.t * Z)) :
  (forall row, In row rows -> has_user st (models.Post.owner_id (fst row)) = true) ->
  exists body,
    main.render_PostOutList st rows = Some body /\ Forall2 (rendered st) rows body.
Proof.
  induction rows as [|row rows IH]; intros H.
  - exists []. split; [reflexivity | constructor].
  - destruct IH as (body & Hb & Hall); [intros r Hr; apply H; now right|].
    simpl. unfold main.render_PostOut, main.render_Post.
    pose proof (H row (or_introl eq_refl)) as Hown.
    destruct (first _) as [u|] eqn:F.
    + rewrite Hb. eexists. split; [reflexivity|].
      constructor; [|assumption].
      apply first_filter_Some in F. destruct F as [Hu Hid]. apply Z.eqb_eq in Hid.
      exists u. repeat split; assumption.
    + apply first_filter_existsb in F. unfold has_user in Hown. congruence.
Qed.

(** X20.  In every reachable store, a list-posts request with a token
    that resolves, a search string without the NUL character and [limit]
    and [skip] in the range 0 .. 2^63 - 1 is answered 200 and leaves the
    store as it was; the body lists, in their order, the rows that the
    handler returned, at most [limit] of them, each as the columns of the
    post, the public record of the user row that owns it, and the count. *)
Theorem list_posts_responds {env : Env} (now : Z) (token : jose.token)
    (limit skip : Z) (search : option string) (st : Store) (c : models.User.t) :
  main.reachable st ->
  oauth2.get_current_user now token st = (inr c, st) ->
  (forall s, search = Some s -> has_nul s = false) ->
  0 <= limit < 2 ^ 63 ->
  0 <= skip < 2 ^ 63 ->
  exists rows body,
    post.get_posts c (Some limit) (Some skip) search st = (inr rows, st)
    /\ main.serve now (main.GetPosts token (Some limit) (Some skip) search) st
       = (main.mkHTTPResponse 200 (main.JsonPostOutList body) [], st)
    /\ Forall2 (rendered st) rows body
    /\ Z.of_nat (length body) <= limit.
Proof.
  intros Hr Hauth Hnul Hl Hs. apply reachable_ok in Hr.
  pose proof (ok_post_pk _ Hr) as Hpk.
  assert (G : post.get_posts c (Some limit) (Some skip) search st
              = (inr (firstn (Z.to_nat limit)
                        (skipn (Z.to_nat skip)
                           (order_by_id
                              (post.posts_with_votes
                                 (fun p => contains (models.Post.title p)
                                             match search with
                                             | Some s => s
                                             | None => EmptyString
                                             end) st)))), st)).
  { unfold post.get_posts. rewrite (search_no_nul _ Hnul).
    now rewrite limit_offset_ok by lia. }
  destruct (render_rows st _
              (fun row Hrow =>
                 ok_post_owner _ Hr _
                   (proj1 (get_posts_rows _ _ _ _ _ _ _ _ Hpk G Hrow))))
    as (body & Hb & Hall).
  eexists. exists body. split; [exact G|]. split; [|split; [exact Hall|]].
  - simpl. unfold main.respond, bind. rewrite Hauth, G, Hb. reflexivity.
  - rewrite <- (Forall2_length Hall).
    pose proof (firstn_le_length (Z.to_nat limit)
                  (skipn (Z.to_nat skip)
                     (order_by_id
                        (post.posts_with_votes
                           (fun p => contains (models.Post.title p)
                                       match search with
                                       | Some s => s
                                       | None => EmptyString
                                       end) st)))) as Hle.
    lia.
Qed.

Lemma list_posts_responds_witness :
  let out :=
    schemas.PostOut.mk
      (schemas.Post.mk "abc" "cba" false 1 5 1
         (schemas.UserOut.mk 1 "ann@example.com" 0)) 0 in
  @main.reachable example_env example_store
  /\ @oauth2.get_current_user example_env 5 example_token example_store
     = (inr example_user, example_store)
  /\ (forall s, Some "b" = Some s -> has_nul s = false)
  /\ 0 <= 10 < 2 ^ 63
  /\ 0 <= 0 < 2 ^ 63
  /\ @main.serve example_env 5
       (main.GetPosts example_token (Some 10) (Some 0) (Some "b")) example_store
     = (main.mkHTTPResponse 200 (main.JsonPostOutList [out]) [], example_store)
  /\ exists rows body,
       post.get_posts example_user (Some 10) (Some 0) (Some "b") example_store
       = (inr rows, example_store)
       /\ @main.serve example_env 5
            (main.GetPosts example_token (Some 10) (Some 0) (Some "b")) example_store
          = (main.mkHTTPResponse 200 (main.JsonPostOutList body) [], example_store)
       /\ Forall2 (rendered example_store) rows body
       /\ Z.of_nat (length body) <= 10.
Proof.
  assert (Hn : forall s, Some "b" = Some s -> has_nul s = false)
    by (intros s E; injection E as <-; reflexivity).
  assert (Hl : 0 <= 10 < 2 ^ 63) by (split; [discriminate | reflexivity]).
  assert (Hs : 0 <= 0 < 2 ^ 63) by (split; [discriminate | reflexivity]).
  split; [exact example_store_reachable|]. split; [reflexivity|].
  split; [exact Hn|]. split; [exact Hl|]. split; [exact Hs|].
  split; [reflexivity|].
  exact (@list_posts_responds example_env 5 example_token 10 0 (Some "b")
           example_store example_user example_store_reachable eq_refl Hn Hl Hs).
Defined.
